(** * spatialsed: the multi-component mock parameter file

    A shallow embedding of [paramfiles/demo_mock_params.py] and the
    properties its specification states about it.

    Conventions of the embedding.
    - A Python call either returns or raises: [result A] carries the value or
      the exception, and code is sequenced with stdpp's [x ← m; k].
    - Source literals ([0.1], [1e10], [3631]) are recorded as the decimals
      they are written as, in [Q].  Run-time numbers live in a type [F] with
      the operations of the [Numeric] interface; [flit] injects a literal.
      Statements that only depend on the shape of the computation are proved
      for every [F]; statements that need the laws of arithmetic are proved
      at [F := Q], exact arithmetic without rounding and without NaN.
    - numpy arrays are [nd]: a scalar, a vector or a matrix given by its rows,
      with numpy's broadcasting written out.
    - What the file imports from the host fitting framework, the filter
      library, the synthesis engine and the cosmology library is the [Host]
      interface: the embedded functions take it as a parameter. *)

From Stdlib Require Import QArith Qround ZArith List String Sorted Lia.
From stdpp Require Import gmap strings list.

Open Scope string_scope.

(** ** Python results and exceptions *)

Inductive exn : Type :=
| NameError (name : string)
| UnboundLocalError (name : string)
| KeyError (key : string)
| ValueError (what : string)
| TypeError (what : string)
| IndexError (what : string)
| ZeroDivisionError
| OSError (what : string)
| HostError (what : string).

Inductive result (A : Type) : Type :=
| Ok (a : A)
| Err (e : exn).
Arguments Ok {A} a.
Arguments Err {A} e.

#[export] Instance result_ret : MRet result := fun _ a => Ok a.
#[export] Instance result_bind : MBind result := fun _ _ f m =>
  match m with
  | Ok a => f a
  | Err e => Err e
  end.
#[export] Instance result_fmap : FMap result := fun _ _ f m =>
  match m with
  | Ok a => Ok (f a)
  | Err e => Err e
  end.

Definition returns {A} (m : result A) : Prop := ∃ a, m = Ok a.
Definition raises {A} (m : result A) : Prop := ∃ e, m = Err e.

(** [dict[key]]: a missing key raises [KeyError]. *)
Definition getitem {V} (d : gmap string V) (key : string) : result V :=
  match d !! key with
  | Some v => Ok v
  | None => Err (KeyError key)
  end.

(** [for x in xs: ...] over a fallible body, collecting the results. *)
Fixpoint for_each {A B} (f : A → result B) (xs : list A) : result (list B) :=
  match xs with
  | [] => Ok []
  | x :: xs' => y ← f x; ys ← for_each f xs'; Ok (y :: ys)
  end.

(** ** Configuration values, as written in the source *)

Inductive pyval : Type :=
| PyNone
| PyBool (b : bool)
| PyInt (z : Z)
| PyFloat (q : Q)
| PyStr (s : string)
| PyArr (a : list Q)
| PyDict (kv : list (string * Q)).

Inductive Prior : Type :=
| TopHat (mini maxi : Q)
| LogUniform (mini maxi : Q).

(** One dictionary of [model_params].  The keys ['name'], ['N'], ['isfree'],
    ['init'] and ['prior'] are in every entry (['prior': None] is [None]);
    the other keys are in some entries only. *)
Record ParameterSpec : Type := {
  name : string;
  N : nat;
  isfree : bool;
  init : pyval;
  init_disp : option Q;
  units : option string;
  reinit : option bool;
  prior : option Prior
}.

Definition set_init (v : pyval) (p : ParameterSpec) : ParameterSpec :=
  {| name := name p; N := N p; isfree := isfree p; init := v;
     init_disp := init_disp p; units := units p; reinit := reinit p;
     prior := prior p |}.

(** ** RUN_PARAMS *)

Definition run_params : list (string * pyval) :=
  [ ("verbose", PyBool true);
    ("debug", PyBool false);
    ("outfile", PyStr "spatial_demo");
    ("nested_bound", PyStr "multi");
    ("nested_sample", PyStr "rwalk");
    ("nested_walks", PyInt 30);
    ("nested_nlive_batch", PyInt 200);
    ("nested_nlive_init", PyInt 200);
    ("nested_weight_kwargs", PyDict [("pfrac", 1.0%Q)]);
    ("nested_dlogz_init", PyFloat 0.01);
    ("snr", PyFloat 20.0);
    ("add_noise", PyBool false);
    ("mass", PyArr [4e10; 1e10]%Q);
    ("logzsol", PyArr [0.0; -0.5]%Q);
    ("tage", PyArr [12; 4]%Q);
    ("tau", PyArr [1; 10]%Q);
    ("dust2", PyArr [0.2; 0.6]%Q);
    ("zred", PyFloat 1);
    ("logify_spectrum", PyBool false);
    ("normalize_spectrum", PyBool false);
    ("zcontinuous", PyInt 1) ].

(** ** MODEL_PARAMS: the catalog, in the order of the [append] calls *)

Definition model_params : list ParameterSpec :=
  [ {| name := "zred"; N := 1; isfree := false; init := PyFloat 0.1;
       init_disp := None; units := Some ""; reinit := None;
       prior := Some (TopHat 0.0 4.0) |};
    {| name := "sfh"; N := 1; isfree := false; init := PyInt 4;
       init_disp := None; units := Some "type"; reinit := None;
       prior := None |};
    {| name := "mass"; N := 2; isfree := true; init := PyFloat 1e10;
       init_disp := Some 1e9%Q; units := Some "M_\odot"; reinit := None;
       prior := Some (LogUniform 1e8 1e12) |};
    {| name := "logzsol"; N := 2; isfree := true; init := PyFloat (-0.3);
       init_disp := Some 0.3%Q; units := Some "$\log (Z/Z_\odot)$";
       reinit := None; prior := Some (TopHat (-1.5) 0.19) |};
    {| name := "pmetals"; N := 1; isfree := false; init := PyInt (-99);
       init_disp := None; units := None; reinit := None; prior := None |};
    {| name := "tau"; N := 2; isfree := true; init := PyFloat 1.0;
       init_disp := Some 0.5%Q; units := Some "Gyr"; reinit := None;
       prior := Some (LogUniform 0.101 100) |};
    {| name := "tage"; N := 2; isfree := true; init := PyFloat 5.0;
       init_disp := Some 3.0%Q; units := Some "Gyr"; reinit := None;
       prior := Some (TopHat 0.01 14.0) |};
    {| name := "dust2"; N := 2; isfree := true; init := PyFloat 0.35;
       init_disp := Some 0.3%Q;
       units := Some "Diffuse dust optical depth towards all stars at 5500AA";
       reinit := Some true; prior := Some (TopHat 0.0 2.0) |};
    {| name := "dust_index"; N := 1; isfree := false; init := PyFloat (-0.7);
       init_disp := None;
       units := Some "power law slope of the attenuation curve for diffuse dust";
       reinit := None; prior := None |};
    {| name := "dust1_index"; N := 1; isfree := false; init := PyFloat (-1.0);
       init_disp := None;
       units := Some "power law slope of the attenuation curve for young-star dust";
       reinit := None; prior := None |};
    {| name := "dust_type"; N := 1; isfree := false; init := PyInt 0;
       init_disp := None; units := Some "index"; reinit := None;
       prior := None |};
    {| name := "add_dust_emission"; N := 1; isfree := false;
       init := PyBool true; init_disp := None; units := Some "index";
       reinit := None; prior := None |};
    {| name := "duste_umin"; N := 1; isfree := false; init := PyFloat 1.0;
       init_disp := None; units := Some "MMP83 local MW intensity";
       reinit := None; prior := None |};
    {| name := "duste_qpah"; N := 1; isfree := false; init := PyFloat 2.0;
       init_disp := None; units := Some "MMP83 local MW intensity";
       reinit := None; prior := None |};
    {| name := "add_neb_emission"; N := 1; isfree := false;
       init := PyBool false; init_disp := None; units := None;
       reinit := None; prior := None |};
    {| name := "gas_logz"; N := 1; isfree := false; init := PyFloat 0.0;
       init_disp := None; units := Some "log Z/Z_\odot"; reinit := None;
       prior := Some (TopHat (-2.0) 0.5) |};
    {| name := "gas_logu"; N := 1; isfree := false; init := PyFloat (-2.0);
       init_disp := None; units := Some ""; reinit := None;
       prior := Some (TopHat (-4) (-1)) |};
    {| name := "phot_jitter"; N := 1; isfree := false; init := PyFloat 0.0;
       init_disp := None; units := Some "mags"; reinit := None;
       prior := Some (TopHat 0.0 0.2) |} ].

(** [stellar_logzsol(logzsol=0.0, **extras)] returns its [logzsol]. *)
Definition stellar_logzsol (kwargs : gmap string pyval) : pyval :=
  default (PyFloat 0.0) (kwargs !! "logzsol").

(** The row of the specification's parameter table that a catalog entry
    corresponds to: its name, multiplicity and free flag. *)
Definition table_row (p : ParameterSpec) : string * nat * bool :=
  (name p, N p, isfree p).

Definition free_params (cat : list ParameterSpec) : list ParameterSpec :=
  List.filter isfree cat.

(** Modelled from the spec: the Theta vector of the host framework, "the
    ordered concatenation of all free ParameterSpec values", one slot per
    unit of multiplicity.  [theta_slots] names the slots in order. *)
Definition theta_slots (cat : list ParameterSpec) : list (string * nat) :=
  flat_map (fun p => List.map (fun i => (name p, i)) (seq 0 (N p)))
           (free_params cat).

Definition ndim (cat : list ParameterSpec) : nat := length (theta_slots cat).

(** [pn.index(x)]: the first position of [x], or [ValueError]. *)
Fixpoint py_index (x : string) (l : list string) : result nat :=
  match l with
  | [] => Err (ValueError "is not in list")
  | y :: l' => if String.eqb y x then Ok 0 else S <$> py_index x l'
  end.

(** ** Run-time numbers *)

(** The arithmetic the source uses on Python and numpy floats.  [fltb x y] is
    [x < y] and [feqb x y] is [x == y]. *)
Class Numeric (F : Type) : Type := {
  flit : Q → F;
  fadd : F → F → F;
  fsub : F → F → F;
  fmul : F → F → F;
  fdiv : F → F → F;
  fpow : F → F → F;
  fltb : F → F → bool;
  feqb : F → F → bool
}.

(** ** numpy arrays *)

(** A 0-d value, a 1-d array, or a 2-d array as the list of its rows (all of
    one length; a 2-d array with no row is not told apart by its width). *)
Inductive nd (F : Type) : Type :=
| Sc (x : F)
| V1 (v : list F)
| M2 (rows : list (list F)).
Arguments Sc {F} x.
Arguments V1 {F} v.
Arguments M2 {F} rows.

(** The value of a key of [self.params] at run time. *)
Inductive pval (F : Type) : Type :=
| VNum (a : nd F)
| VStr (s : string)
| VStrs (l : list string)
| VNone.
Arguments VNum {F} a.
Arguments VStr {F} s.
Arguments VStrs {F} l.
Arguments VNone {F}.

(** The [component] argument: one index, or an index array. *)
Inductive selector : Type :=
| CInt (c : Z)
| CArr (cs : list Z).

(** numpy broadcasting along one axis: equal lengths pair up, a length of one
    is repeated, anything else is refused. *)
Definition bcast {A B C} (f : A → B → result C)
    (xs : list A) (ys : list B) : result (list C) :=
  if Nat.eqb (length xs) (length ys)
  then for_each (fun p => f (fst p) (snd p)) (zip xs ys)
  else match xs, ys with
       | [x], _ => for_each (f x) ys
       | _, [y] => for_each (fun x => f x y) xs
       | _, _ => Err (ValueError "operands could not be broadcast together")
       end.

Definition rectangular {A} (rows : list (list A)) : bool :=
  match rows with
  | [] => true
  | r :: rows' => forallb (fun r' => Nat.eqb (length r') (length r)) rows'
  end.

Section Arrays.
Context {F : Type} {num : Numeric F}.

Definition bcast1 (op : F → F → F) : list F → list F → result (list F) :=
  bcast (fun x y => Ok (op x y)).

(** An elementwise binary operator [a op b] on arrays. *)
Definition np_binop (op : F → F → F) (a b : nd F) : result (nd F) :=
  match a, b with
  | Sc x, Sc y => Ok (Sc (op x y))
  | Sc x, V1 v => Ok (V1 (List.map (op x) v))
  | Sc x, M2 m => Ok (M2 (List.map (List.map (op x)) m))
  | V1 v, Sc y => Ok (V1 (List.map (fun x => op x y) v))
  | M2 m, Sc y => Ok (M2 (List.map (List.map (fun x => op x y)) m))
  | V1 u, V1 v => V1 <$> bcast1 op u v
  | V1 u, M2 m => M2 <$> for_each (fun row => bcast1 op u row) m
  | M2 m, V1 v => M2 <$> for_each (fun row => bcast1 op row v) m
  | M2 m, M2 m' => M2 <$> bcast (bcast1 op) m m'
  end.

Definition same_shape (a b : nd F) : bool :=
  match a, b with
  | Sc _, Sc _ => true
  | V1 u, V1 v => Nat.eqb (length u) (length v)
  | M2 m, M2 m' =>
      Nat.eqb (length m) (length m') &&
      forallb (fun p => Nat.eqb (length (fst p)) (length (snd p))) (zip m m')
  | _, _ => false
  end.

(** [a op= b].  On an array the result is written into [a], so it must have
    the shape of [a]; on a Python float the name is rebound. *)
Definition np_inplace (op : F → F → F) (a b : nd F) : result (nd F) :=
  r ← np_binop op a b;
  match a with
  | Sc _ => Ok r
  | _ => if same_shape r a then Ok r
         else Err (ValueError "non-broadcastable output operand")
  end.

Definition np_atleast_1d (a : nd F) : nd F :=
  match a with
  | Sc x => V1 [x]
  | _ => a
  end.

(** All the elements, row after row. *)
Definition flat (a : nd F) : list F :=
  match a with
  | Sc x => [x]
  | V1 v => v
  | M2 m => concat m
  end.

(** [v.sum()] of a 1-d array. *)
Definition np_sum (v : list F) : F :=
  match v with
  | [] => flit 0
  | x :: v' => fold_left fadd v' x
  end.

Definition fmin (x y : F) : F := if fltb y x then y else x.
Definition fmax (x y : F) : F := if fltb x y then y else x.

(** [v.min()] and [v.max()]: an empty array has none. *)
Definition np_min (v : list F) : result F :=
  match v with
  | [] => Err (ValueError "zero-size array to reduction operation minimum")
  | x :: v' => Ok (fold_left fmin v' x)
  end.

Definition np_max (v : list F) : result F :=
  match v with
  | [] => Err (ValueError "zero-size array to reduction operation maximum")
  | x :: v' => Ok (fold_left fmax v' x)
  end.

(** [np.array(rows)] of a list of 1-d arrays. *)
Definition np_array (rows : list (list F)) : result (nd F) :=
  match rows with
  | [] => Ok (V1 [])
  | _ => if rectangular rows then Ok (M2 rows)
         else Err (ValueError "inhomogeneous shape")
  end.

Definition vdot (u v : list F) : F :=
  np_sum (zip_with fmul u v).

Definition vaxpy (x : F) (row acc : list F) : list F :=
  zip_with fadd acc (List.map (fmul x) row).

(** [np.dot(u, a)] for a 1-d [u]: the inner product with a 1-d [a], the
    combination [sum_i u[i] * a[i, :]] of the rows of a 2-d [a]. *)
Definition np_dot (u : list F) (a : nd F) : result (nd F) :=
  match a with
  | V1 v =>
      if Nat.eqb (length u) (length v) then Ok (Sc (vdot u v))
      else Err (ValueError "shapes not aligned")
  | M2 rows =>
      if Nat.eqb (length u) (length rows) then
        match u, rows with
        | x :: u', r :: rows' =>
            Ok (V1 (fold_left (fun acc p => vaxpy (fst p) (snd p) acc)
                              (zip u' rows') (List.map (fmul x) r)))
        | _, _ => Ok (V1 [])
        end
      else Err (ValueError "shapes not aligned")
  | Sc y => Ok (V1 (List.map (fun x => fmul x y) u))
  end.

(** [np.squeeze] of a list of rows: axes of length one are dropped. *)
Definition np_squeeze_rows (rows : list (list F)) : result (nd F) :=
  if rectangular rows then
    match rows with
    | [] => Ok (V1 [])
    | [[x]] => Ok (Sc x)
    | [r] => Ok (V1 r)
    | [x] :: _ => Ok (V1 (concat rows))
    | _ => Ok (M2 rows)
    end
  else Err (ValueError "inhomogeneous shape").

(** [np.squeeze] of a list of numbers. *)
Definition np_squeeze_list (l : list F) : nd F :=
  match l with
  | [x] => Sc x
  | _ => V1 l
  end.

(** [v[:, None]]: a 1-d array as one column. *)
Definition as_column (a : nd F) : result (nd F) :=
  match a with
  | V1 v => Ok (M2 (List.map (fun x => [x]) v))
  | Sc _ => Err (IndexError "too many indices for array")
  | M2 _ => Err (ValueError "three axes are not modelled")
  end.

(** An index into an axis of length [n]; a negative index counts from the
    end. *)
Definition wrap_index (n : nat) (i : Z) : result nat :=
  if (0 <=? i)%Z && (i <? Z.of_nat n)%Z then Ok (Z.to_nat i)
  else if (i <? 0)%Z && (- Z.of_nat n <=? i)%Z then Ok (Z.to_nat (Z.of_nat n + i))
  else Err (IndexError "index out of bounds").

Definition item2 (rows : list (list F)) (i : Z) (j : nat) : result F :=
  r ← wrap_index (length rows) i;
  match rows !! r with
  | Some row =>
      match row !! j with
      | Some x => Ok x
      | None => Err (IndexError "index out of bounds")
      end
  | None => Err (IndexError "index out of bounds")
  end.

(** [a[component, filter_ind]] with index arrays: the two are broadcast
    against each other and the elements picked one by one. *)
Definition fancy_index (a : nd F) (component : selector)
    (filter_ind : list nat) : result (nd F) :=
  match a with
  | M2 rows =>
      match component with
      | CInt c => V1 <$> for_each (item2 rows c) filter_ind
      | CArr cs => V1 <$> bcast (item2 rows) cs filter_ind
      end
  | _ => Err (IndexError "too many indices for array")
  end.

(** [len(a)]. *)
Definition py_len (a : nd F) : result nat :=
  match a with
  | Sc _ => Err (TypeError "len() of unsized object")
  | V1 v => Ok (length v)
  | M2 m => Ok (length m)
  end.

(** [np.atleast_1d] of a configuration value (arrays of objects, as of
    [None] or of a dictionary, are not told apart from [None]). *)
Definition atleast_1d_of (v : pyval) : pval F :=
  match v with
  | PyNone => VNone
  | PyBool b => VNum (V1 [flit (if b then 1 else 0)])
  | PyInt z => VNum (V1 [flit (inject_Z z)])
  | PyFloat q => VNum (V1 [flit q])
  | PyStr s => VStrs [s]
  | PyArr a => VNum (V1 (List.map flit a))
  | PyDict _ => VNone
  end.

End Arrays.

(** ** Objects *)

(** A filter bandpass of the filter library: its name and its transmission
    curve (wavelength, throughput). *)
Record Filter (F : Type) : Type := {
  filt_name : string;
  transmission : list (F * F)
}.
Arguments filt_name {F} f.
Arguments transmission {F} f.

(** The state of a [SpatialSource]: its [params] mapping.  The inner engine
    [self.ssp] belongs to the host. *)
Record SpatialSource (F : Type) : Type := {
  sps_params : gmap string (pval F)
}.
Arguments sps_params {F} s.

(** The state of a [SpatialSedModel]: the catalog it was built over, its
    [params] mapping and the cached [_spec] (absent until [sed] has run). *)
Record SpatialSedModel (F : Type) : Type := {
  mod_config : list ParameterSpec;
  mod_params : gmap string (pval F);
  _spec : option (nd F)
}.
Arguments mod_config {F} s.
Arguments mod_params {F} s.
Arguments _spec {F} s.

(** The [obs] dictionary.  A field is [None] when the key is absent; for
    ['filters'] and ['wavelength'] the value itself may be Python's [None]. *)
Record Obs (F : Type) : Type := {
  filters : option (option (list (Filter F)));
  component : option selector;
  wavelength : option (option (nd F));
  normalization_guess : option F;
  lnwavegrid : option (nd F);
  maggies : option (nd F);
  maggies_unc : option (nd F);
  mock_snr : option (nd F);
  phot_mask : option (list bool);
  true_spectrum : option (nd F);
  true_maggies : option (nd F);
  mock_params : option (gmap string (pval F))
}.
Arguments filters {F} o.
Arguments component {F} o.
Arguments wavelength {F} o.
Arguments normalization_guess {F} o.
Arguments lnwavegrid {F} o.
Arguments maggies {F} o.
Arguments maggies_unc {F} o.
Arguments mock_snr {F} o.
Arguments phot_mask {F} o.
Arguments true_spectrum {F} o.
Arguments true_maggies {F} o.
Arguments mock_params {F} o.

(** What one evaluation of the model returns: spectrum, photometry, extras,
    and the objects as the call left them. *)
Definition sed_result (F : Type) : Type :=
  (nd F * nd F * nd F * SpatialSedModel F * SpatialSource F)%type.

Definition sed_method (F : Type) : Type :=
  SpatialSedModel F → list F → Obs F → SpatialSource F → result (sed_result F).

(** ** The host: what the file imports and inherits *)

Class Host (F : Type) : Type := {
  (** [prospect.sources.constants] *)
  lightspeed : F;
  jansky_cgs : F;
  to_cgs_at_10pc : F;
  (** [sedpy.observate]: the AB magnitude of one spectrum through one filter,
      and [load_filters(names, directory=...)]. *)
  ab_mag : Filter F → list F → list F → F;
  load_filters : list string → string → result (list (Filter F));
  (** [CSPSpecBasis]: the constructor's initial [params]; [self.update];
      and, for component [i] under the current [params], what
      [update_component(i)], [ssp.get_spectrum(tage=..., peraa=False)] and
      [ssp.stellar_mass] give: wavelengths, spectrum, surviving fraction. *)
  source_init : pyval → pyval → gmap string (pval F);
  update : gmap string (pval F) → gmap string (pval F) → gmap string (pval F);
  ssp_component : gmap string (pval F) → nat → result (list F * list F * F);
  (** [astropy.cosmology.WMAP9.luminosity_distance(z).value], in Mpc. *)
  luminosity_distance : F → F;
  (** [SedModel]: the constructor's [params], [set_parameters], [theta],
      [sky()], and [mean_model], which calls back into the [sed] method of
      the object. *)
  configure : list ParameterSpec → gmap string (pval F);
  set_parameters : list F → gmap string (pval F) → gmap string (pval F);
  theta : SpatialSedModel F → list F;
  sky : SpatialSedModel F → nd F;
  mean_model : sed_method F → sed_method F;
  (** [os.getenv], [os.listdir] *)
  getenv : string → option string;
  listdir : string → result (list string);
  (** [np.random.normal(0, 1, n)] *)
  random_normal : nat → list F
}.

(** [to_cgs = to_cgs_at_10pc] *)
Definition to_cgs {F} {host : Host F} : F := to_cgs_at_10pc.

(** ** Names *)

(** The names the module binds at top level, in the order of the source. *)
Definition module_names : list string :=
  [ "deepcopy"; "np"; "os"; "priors"; "sedmodel"; "cosmo"; "load_filters";
    "getSED"; "tophat"; "run_params"; "load_obs"; "CSPSpecBasis"; "SedModel";
    "lightspeed"; "jansky_cgs"; "to_cgs_at_10pc"; "to_cgs"; "SpatialSource";
    "SpatialSedModel"; "load_sps"; "load_gp"; "model_params";
    "stellar_logzsol"; "load_model" ].

(** Reading a global name inside a function: [denotation] is what the name
    stands for where it is bound; a name the module does not bind (and that
    is no builtin) raises [NameError]. *)
Definition lookup_global {A} (n : string) (denotation : A) : result A :=
  if bool_decide (n ∈ module_names) then Ok denotation else Err (NameError n).

(** Reading a local variable: [None] is a local no assignment has reached. *)
Definition lookup_local {A} (n : string) (v : option A) : result A :=
  match v with
  | Some a => Ok a
  | None => Err (UnboundLocalError n)
  end.

(** ** np.unique *)

Fixpoint insert_sorted (s : string) (l : list string) : list string :=
  match l with
  | [] => [s]
  | t :: l' =>
      match String.compare s t with
      | Lt => s :: l
      | Eq => l
      | Gt => t :: insert_sorted s l'
      end
  end.

Fixpoint first_index (s : string) (l : list string) : nat :=
  match l with
  | [] => 0
  | t :: l' => if String.eqb t s then 0 else S (first_index s l')
  end.

(** [np.unique(names, return_index=True, return_inverse=True)]: the sorted
    distinct names, the first position of each in [names], and for each
    element of [names] its position among the distinct names. *)
Definition np_unique (names : list string)
    : list string * list nat * list nat :=
  let unique_names := foldr insert_sorted [] names in
  (unique_names,
   List.map (fun u => first_index u names) unique_names,
   List.map (fun n => first_index n unique_names) names).

Section Program.
Context {F : Type} {num : Numeric F} {host : Host F}.

(** A value used as a number: a string or [None] in arithmetic is a
    [TypeError]. *)
Definition as_num (v : pval F) : result (nd F) :=
  match v with
  | VNum a => Ok a
  | _ => Err (TypeError "unsupported operand type")
  end.

(** [np.atleast_1d(self.params['mass'])], which the code iterates over and
    sums as a 1-d array.  A mass array of two axes is outside the model. *)
Definition mass_array (params : gmap string (pval F)) : result (list F) :=
  v ← getitem params "mass";
  a ← as_num v;
  match np_atleast_1d a with
  | V1 m => Ok m
  | _ => Err (TypeError "mass with more than one axis")
  end.

(** [np.all(self.params.get('mass_units', 'mformed') == 'mstar')] *)
Definition mass_units_is_mstar (params : gmap string (pval F)) : bool :=
  match default (VStr "mformed") (params !! "mass_units") with
  | VStr s => String.eqb s "mstar"
  | VStrs l => forallb (fun s => String.eqb s "mstar") l
  | _ => false
  end.

(** *** SpatialSource.get_galaxy_spectrum *)

Definition get_galaxy_spectrum (self : SpatialSource F)
    (params : gmap string (pval F))
    : result (list F * nd F * nd F * SpatialSource F) :=
  let self := {| sps_params := update params (sps_params self) |} in
  mass ← mass_array (sps_params self);
  (* the loop over the mass components *)
  comps ← for_each (ssp_component (sps_params self)) (seq 0 (length mass));
  let wave := last (List.map (fun c => fst (fst c)) comps) in
  let spectra := List.map (fun c => snd (fst c)) comps in
  let mfrac := List.map snd comps in
  (* per stellar mass to per mass formed *)
  let mass :=
    if mass_units_is_mstar (sps_params self)
    then zip_with fdiv mass mfrac else mass in
  spectrum ← (arr ← np_array spectra;
              d ← np_dot mass arr;
              np_binop fdiv d (Sc (np_sum mass)));
  let mfrac_sum := fdiv (vdot mass mfrac) (np_sum mass) in
  wave ← lookup_local "wave" wave;
  row ← match spectrum with
        | V1 r => Ok r
        | _ => Err (ValueError "inhomogeneous shape")
        end;
  stacked ← np_squeeze_rows (spectra ++ [row]);
  Ok (wave, stacked, np_squeeze_list (mfrac ++ [mfrac_sum]), self).

(** *** The wavelength solution *)

(** Modelled from the spec: the Chebyshev series that the name [chebval]
    stands for in numpy ([numpy.polynomial.chebyshev.chebval], Clenshaw's
    recursion), at one point [x].  The source uses the name and never
    imports it. *)
Definition chebval1 (c : list F) (x : F) : F :=
  match rev c with
  | [] => flit 0
  | [c0] => fadd c0 (fmul (flit 0) x)
  | c1 :: c0 :: rest =>
      let x2 := fmul (flit 2) x in
      let cc := fold_left
                  (fun cc ci => (fsub ci (snd cc),
                                 fadd (fst cc) (fmul (snd cc) x2)))
                  rest (c0, c1) in
      fadd (fst cc) (fmul (snd cc) x)
  end.

Definition np_chebval (x : list F) (c : list F) : nd F :=
  V1 (List.map (chebval1 c) x).

(** The body of [if 'wavecal_coeffs' in self.params:], giving [b]. *)
Definition wavecal_shift (params : gmap string (pval F)) (wave : list F)
    : result (nd F) :=
  x ← (wmin ← np_min wave; Ok (List.map (fun w => fsub w wmin) wave));
  x ← (xmax ← np_max x;
       Ok (List.map (fun v => fsub (fmul (flit 2.0) (fdiv v xmax)) (flit 1.0)) x));
  c ← (v ← getitem params "wavecal_coeffs";
       a ← as_num v;
       Ok (flit 0 :: flat a));
  (* assume coefficients give shifts in km/s *)
  chebval ← lookup_global "chebval" np_chebval;
  np_binop fdiv (chebval x c) (Sc (fmul lightspeed (flit 1e-13))).

(** *** Photometry *)

(** Modelled from the spec: [getSED(wave, flux, filters)] of the filter
    library, "synthetic-magnitude integration against each unique filter":
    one magnitude per spectrum and filter. *)
Definition getSED (wave flux : nd F) (filterlist : list (Filter F))
    : result (nd F) :=
  match wave, flux with
  | V1 w, V1 f => Ok (V1 (List.map (fun flt => ab_mag flt w f) filterlist))
  | V1 w, M2 rows =>
      Ok (M2 (List.map
                (fun f => List.map (fun flt => ab_mag flt w f) filterlist)
                rows))
  | _, _ => Err (ValueError "wavelength and flux shapes")
  end.

(** The truth value of [zred == 0]. *)
Definition is_zero (v : pval F) : result bool :=
  match v with
  | VNum (Sc x) => Ok (feqb x (flit 0))
  | VNum (V1 [x]) => Ok (feqb x (flit 0))
  | VNum (V1 []) => Ok false
  | VNum (M2 [[x]]) => Ok (feqb x (flit 0))
  | VNum _ => Err (ValueError "truth value of an array is ambiguous")
  | _ => Ok false
  end.

Definition nd_map (f : F → F) (a : nd F) : nd F :=
  match a with
  | Sc x => Sc (f x)
  | V1 v => V1 (List.map f v)
  | M2 m => M2 (List.map (List.map f) m)
  end.

(** The photometry before dimming, and [filter_ind] where the branch binds
    it. *)
Definition project (wa sa : nd F) (filters : option (list (Filter F)))
    : result (nd F * option (list nat)) :=
  match filters with
  | Some filters =>
      let fnames := List.map filt_name filters in
      let '(unique_names, uinds, filter_ind) := np_unique fnames in
      unique_filters ←
        for_each (fun i => match filters !! i with
                           | Some f => Ok f
                           | None => Err (IndexError "index out of bounds")
                           end) uinds;
      flux ← (w2 ← np_binop fpow wa (Sc (flit 2));
              t ← np_binop fdiv (Sc lightspeed) w2;
              t ← np_binop fmul t sa;
              np_binop fmul t (Sc to_cgs));
      mags ← getSED wa flux unique_filters;
      e ← np_binop fmul (Sc (flit (-0.4))) mags;
      p ← np_binop fpow (Sc (flit 10)) e;
      Ok (np_atleast_1d p, Some filter_ind)
  | None => Ok (Sc (flit 0.0), None)
  end.

(** *** SpatialSource.get_spectrum *)

Definition get_spectrum (self : SpatialSource F)
    (outwave : option (nd F)) (filters : option (list (Filter F)))
    (component : selector) (params : gmap string (pval F))
    : result (nd F * nd F * nd F * SpatialSource F) :=
  (* Spectrum in Lsun/Hz per solar mass formed, restframe *)
  '(wave, spectrum, mfrac, self) ← get_galaxy_spectrum self params;
  let sparams := sps_params self in
  (* Redshifting + Wavelength solution *)
  a ← (z ← as_num (default (VNum (Sc (flit 0))) (sparams !! "zred"));
       np_binop fadd (Sc (flit 1)) z);
  let af := a in
  let b := Sc (flit 0.0) in
  b ← (if bool_decide (is_Some (sparams !! "wavecal_coeffs"))
       then wavecal_shift sparams wave
       else Ok b);
  wa ← (ab ← np_binop fadd a b; np_binop fmul (V1 wave) ab);
  sa ← np_binop fmul spectrum af;
  let outwave := match outwave with None => wa | Some w => w end in
  (* Observed frame photometry, as absolute maggies *)
  '(phot, filter_ind) ← project wa sa filters;
  (* Distance dimming and unit conversion *)
  let zred := default (VNum (Sc (flit 0.0))) (sparams !! "zred") in
  near ← (z0 ← is_zero zred;
          Ok (z0 || bool_decide (is_Some (sparams !! "lumdist"))));
  dfactor ←
    (if near : bool then
       ld ← as_num (default (VNum (Sc (flit 1e-5))) (sparams !! "lumdist"));
       t ← np_binop fmul ld (Sc (flit 1e5));
       np_binop fpow t (Sc (flit 2))
     else
       z ← as_num zred;
       let lumdist := nd_map luminosity_distance z in
       t ← np_binop fmul lumdist (Sc (flit 1e5));
       np_binop fpow t (Sc (flit 2)));
  (* Spectrum will be in maggies *)
  sa ← (k ← np_binop fdiv (Sc to_cgs) dfactor;
        k ← np_binop fdiv k (Sc (fmul (flit 3631) jansky_cgs));
        np_inplace fmul sa k);
  (* Convert from absolute maggies to apparent maggies *)
  phot ← np_inplace fdiv phot dfactor;
  (* Mass normalization *)
  mass ← mass_array sparams;
  let mass := np_squeeze_list (mass ++ [np_sum mass]) in
  col ← as_column mass;
  sa ← np_binop fmul sa col;
  pm ← np_binop fmul phot col;
  filter_ind ← lookup_local "filter_ind" filter_ind;
  phot ← fancy_index pm component filter_ind;
  Ok (sa, phot, mfrac, self).

End Program.

Section Model.
Context {F : Type} {num : Numeric F} {host : Host F}.

(** *** The flux clamp of SpatialSedModel.sed *)

(** [1.0/len(spec) * spec[spec > 0].min()] *)
Definition clamp_threshold (spec : nd F) : result F :=
  inv ← (n ← py_len spec;
         if Nat.eqb n 0 then Err ZeroDivisionError
         else Ok (fdiv (flit 1.0) (flit (inject_Z (Z.of_nat n)))));
  m ← np_min (List.filter (fun v => fltb (flit 0) v) (flat spec));
  Ok (fmul inv m).

(** [spec[spec < tiny] = tiny] *)
Definition clamp_to (tiny : F) (spec : nd F) : nd F :=
  nd_map (fun v => if fltb v tiny then tiny else v) spec.

(** The [try: ... except: pass] block: any exception leaves [spec] as it
    is. *)
Definition flux_clamp (spec : nd F) : nd F :=
  match clamp_threshold spec with
  | Ok tiny => clamp_to tiny spec
  | Err _ => spec
  end.

(** The keywords [sed] passes to [get_spectrum] by name; the same key in
    [**self.params] is a [TypeError]. *)
Definition named_keywords : list string :=
  ["outwave"; "filters"; "component"; "lnwavegrid"].

(** *** SpatialSedModel.sed *)

Definition sed : sed_method F := fun self theta obs sps =>
  let self := {| mod_config := mod_config self;
                 mod_params := set_parameters theta (mod_params self);
                 _spec := _spec self |} in
  outwave ← match wavelength obs with
            | Some w => Ok w
            | None => Err (KeyError "wavelength")
            end;
  filters ← match filters obs with
            | Some f => Ok f
            | None => Err (KeyError "filters")
            end;
  let component := default (CInt (-1)) (component obs) in
  let lnwavegrid := match lnwavegrid obs with
                    | Some g => VNum g
                    | None => VNone
                    end in
  params ←
    (if forallb (fun k => bool_decide (mod_params self !! k = None))
                named_keywords
     then Ok (<["lnwavegrid" := lnwavegrid]> (mod_params self))
     else Err (TypeError "got multiple values for keyword argument"));
  '(spec, phot, extras, sps) ←
    get_spectrum sps outwave filters component params;
  spec ← np_inplace fmul spec
           (Sc (default (flit 1.0) (normalization_guess obs)));
  (* Remove negative fluxes. *)
  let spec := flux_clamp spec in
  spec ← np_binop fadd spec (sky self);
  let self := {| mod_config := mod_config self;
                 mod_params := mod_params self;
                 _spec := Some spec |} in
  Ok (spec, phot, extras, self, sps).

Definition spec_calibration : F := flit 1.0.

(** ** SPS Object *)

(** [load_sps(zcontinuous=1, compute_vega_mags=False, **extras)] *)
Definition load_sps (kwargs : gmap string pyval) : SpatialSource F :=
  {| sps_params :=
       source_init (default (PyInt 1) (kwargs !! "zcontinuous"))
                   (default (PyBool false) (kwargs !! "compute_vega_mags")) |}.

(** ** Noise Model *)

Definition load_gp (extras : gmap string pyval) : pyval * pyval :=
  (PyNone, PyNone).

(** ** load_model *)

(** [load_model(zred=0.0, **extras)] with the module-level list it writes
    to: the list goes in, and comes out as the call left it.  The list is
    taken by value here, which is what the call does to a list of pairwise
    distinct dictionaries, as the module's is; [load_model_shared] below
    takes it by reference. *)
Definition load_model (zred : pyval) (model_params : list ParameterSpec)
    : result (SpatialSedModel F * list ParameterSpec) :=
  let pn := List.map name model_params in
  zind ← py_index "zred" pn;
  let model_params := alter (set_init zred) zind model_params in
  Ok ({| mod_config := model_params;
         mod_params := configure model_params;
         _spec := None |},
      model_params).

(** [load_model] called with the keyword dictionary [kwargs]. *)
Definition load_model_kw (kwargs : gmap string pyval)
    (model_params : list ParameterSpec)
    : result (SpatialSedModel F * list ParameterSpec) :=
  load_model (default (PyFloat 0.0) (kwargs !! "zred")) model_params.

End Model.

(** ** OBS *)

(** [s.split(sep)[0]]: what stands before the first [sep], or all of [s]. *)
Definition split_head (sep s : string) : string :=
  match String.index 0 sep s with
  | Some n => String.substring 0 n s
  | None => s
  end.

(** [sub in s] *)
Definition contains (sub s : string) : bool :=
  match String.index 0 sub s with
  | Some _ => true
  | None => false
  end.

Definition fname_hst : list string :=
  ["f435w"; "f606w"; "f775w"; "f850lp"; "f125w"; "f140w"; "f160w"].

Section Mock.
Context {F : Type} {num : Numeric F} {host : Host F}.

Definition empty_obs : Obs F :=
  {| filters := None; component := None; wavelength := None;
     normalization_guess := None; lnwavegrid := None;
     maggies := None; maggies_unc := None; mock_snr := None;
     phot_mask := None; true_spectrum := None; true_maggies := None;
     mock_params := None |}.

(** The mock parameters picked from [kwargs]: for every key of
    [mod.params] that [kwargs] has, [np.atleast_1d(kwargs[p])]. *)
Definition mock_overrides (mod_keys : gmap string (pval F))
    (kwargs : gmap string pyval) : gmap string (pval F) :=
  atleast_1d_of <$>
    filter (fun kv => is_Some (mod_keys !! fst kv)) kwargs.

(** [load_obs(snr=10.0, add_noise=True, **kwargs)], with the module-level
    catalog that [load_model] writes to passed in and out.  The local [mod]
    of the source is [model] here. *)
Definition load_obs (snr : nd F) (add_noise : bool)
    (kwargs : gmap string pyval) (model_params : list ParameterSpec)
    : result (Obs F * list ParameterSpec) :=
  (* first, load the filters *)
  filter_folder ←
    match getenv "APPS" with
    | Some apps => Ok (apps ++ "/spatialsed/filters/")
    | None => Err (TypeError "unsupported operand type(s) for +")
    end;
  fname_all ← listdir filter_folder;
  let fname_goodsn :=
    List.map (split_head ".") (List.filter (contains "goodsn") fname_all) in
  (* now separate into components *)
  let n_hst := length fname_hst in
  let n_blended := (Z.of_nat (length fname_goodsn) - Z.of_nat n_hst)%Z in
  component ←
    (if (n_blended <? 0)%Z
     then Err (ValueError "negative dimensions are not allowed")
     else Ok (repeat 0%Z n_hst ++ repeat 1%Z n_hst
                ++ repeat (-1)%Z (Z.to_nat n_blended))%list);
  (* generate filter list. repeat HST filters *)
  let fname_ground :=
    List.filter
      (fun s => negb (bool_decide (split_head "_" s ∈ fname_hst)))
      fname_goodsn in
  let hst := List.map (fun f => f ++ "_goodsn") fname_hst in
  let fnames := ((hst ++ hst) ++ fname_ground)%list in
  filters ← load_filters fnames filter_folder;
  (* now generate data *)
  let sps := load_sps kwargs in
  '(model, model_params) ← load_model_kw kwargs model_params;
  let obs :=
    {| filters := Some (Some filters);
       component := Some (CArr component);
       wavelength := Some None;
       normalization_guess := None; lnwavegrid := None;
       maggies := None; maggies_unc := None; mock_snr := None;
       phot_mask := None; true_spectrum := None; true_maggies := None;
       mock_params := None |} in
  (* Now we get the mock params from the kwargs dict *)
  let params := mock_overrides (mod_params model) kwargs in
  (* Generate the photometry, add noise *)
  let model := {| mod_config := mod_config model;
                mod_params := params ∪ mod_params model;
                _spec := _spec model |} in
  '(spec, phot, _, model, sps) ← mean_model sed model (theta model) obs sps;
  pnoise_sigma ← np_binop fdiv phot snr;
  maggies ←
    (if add_noise then
       n ← py_len phot;
       pnoise ← np_binop fmul (V1 (random_normal n)) pnoise_sigma;
       np_binop fadd phot pnoise
     else Ok phot);
  (* Now store output in standard format *)
  n ← py_len phot;
  Ok ({| filters := Some (Some filters);
         component := Some (CArr component);
         wavelength := Some None;
         normalization_guess := None; lnwavegrid := None;
         maggies := Some maggies;
         maggies_unc := Some pnoise_sigma;
         mock_snr := Some snr;
         phot_mask := Some (repeat true n);
         true_spectrum := Some spec;
         true_maggies := Some phot;
         mock_params := Some (mod_params model) |},
      model_params).

End Mock.

(** ** Reference definitions

    What the statements below are phrased with: the strict order of names,
    the mean that [get_galaxy_spectrum] takes, and the round trip of the
    photometry through the distinct filters. *)

(** [s < t] on names, character by character. *)
Definition slt (s t : string) : Prop := String.compare s t = Lt.

Section Reference.
Context {F : Type} {num : Numeric F} {host : Host F}.

(** The mass-weighted mean of two rows, as [np.dot(mass, spectra) /
    mass.sum()] computes it. *)
Definition weighted_mean (a b : F) (s0 s1 : list F) : list F :=
  List.map (fun x => fdiv x (fadd a b))
           (zip_with fadd (List.map (fmul a) s0) (List.map (fmul b) s1)).

(** [unique_filters] of [get_spectrum]: [np.array(filters)[uinds]]. *)
Definition unique_filters_of (fs : list (Filter F)) : list (Filter F) :=
  omap (fun i => fs !! i) (snd (fst (np_unique (List.map filt_name fs)))).

(** [filter_ind] of [get_spectrum]: the inverse index of [np.unique]. *)
Definition inverse_index (fs : list (Filter F)) : list nat :=
  snd (np_unique (List.map filt_name fs)).

(** The photometry of a returned triple. *)
Definition photometry_of
    (r : result (nd F * nd F * nd F * SpatialSource F)) : result (nd F) :=
  (fun x => snd (fst (fst x))) <$> r.




(** The length of the last axis. *)
Definition last_axis (u : nat) (a : nd F) : Prop :=
  match a with
  | Sc _ => False
  | V1 v => length v = u
  | M2 m => Forall (fun r => length r = u) m
  end.

(** The filter branch of [project], from the distinct filters on. *)
Definition project_with (wa sa : nd F) (unique_filters : list (Filter F))
    (filter_ind : list nat) : result (nd F * option (list nat)) :=
  flux ← (w2 ← np_binop fpow wa (Sc (flit 2));
          t ← np_binop fdiv (Sc lightspeed) w2;
          t ← np_binop fmul t sa;
          np_binop fmul t (Sc to_cgs));
  mags ← getSED wa flux unique_filters;
  e ← np_binop fmul (Sc (flit (-0.4))) mags;
  p ← np_binop fpow (Sc (flit 10)) e;
  Ok (np_atleast_1d p, Some filter_ind).

End Reference.

(** ** Exact arithmetic *)

(** The rationals as run-time numbers.  [x ** y] is exact for an integral
    [y]; a power with another exponent has no rational value and is read at
    the integer part of [y]. *)
#[export] Instance Q_numeric : Numeric Q := {|
  flit q := q;
  fadd := Qplus;
  fsub := Qminus;
  fmul := Qmult;
  fdiv := Qdiv;
  fpow x y := Qpower x (Qfloor y);
  fltb x y := negb (Qle_bool y x);
  feqb := Qeq_bool
|}.

(** ** A host to run the code on *)

(** A stand-in for the imported libraries, small enough to evaluate: the
    engine answers every component [i] with the wavelengths [demo_wave], the
    spectrum [spectra i] and the surviving fraction [fracs i]; a magnitude is
    2.5 times a whole number read off the filter curve and the size of the
    flux; the
    model's [params] are the catalog's initial values, one per unit of
    multiplicity; [mean_model] is the [sed] method itself. *)
Definition demo_wave : list Q := [1000; 2000; 4000]%Q.

Definition demo_listing : list string :=
  [ "f435w_goodsn.par"; "f606w_goodsn.par"; "f775w_goodsn.par";
    "f850lp_goodsn.par"; "f125w_goodsn.par"; "f140w_goodsn.par";
    "f160w_goodsn.par"; "u_goodsn.par"; "ks_goodsn.par"; "README" ].

Definition demo_init (p : ParameterSpec) : pval Q :=
  match init p with
  | PyFloat q => VNum (V1 (repeat q (N p)))
  | PyInt z => VNum (V1 (repeat (inject_Z z) (N p)))
  | PyBool b => VNum (V1 (repeat (if b then 1 else 0)%Q (N p)))
  | v => atleast_1d_of v
  end.

Definition demo_host (spectra : nat → list Q) (fracs : nat → Q) : Host Q := {|
  lightspeed := 2.998e18%Q;
  jansky_cgs := 1e-23%Q;
  to_cgs_at_10pc := 3.2e-7%Q;
  ab_mag flt w f :=
    (2.5 * inject_Z (Z.of_nat (length (transmission flt))
                     - Z.log2 (Qfloor (hd 0 f))))%Q;
  load_filters names directory :=
    Ok (List.map (fun n => {| filt_name := n; transmission := [] |}) names);
  source_init zcontinuous compute_vega_mags := ∅;
  update kwargs params := kwargs ∪ params;
  ssp_component params i := Ok (demo_wave, spectra i, fracs i);
  luminosity_distance z := (1000 * z)%Q;
  configure cat := list_to_map (List.map (fun p => (name p, demo_init p)) cat);
  set_parameters th params := params;
  theta m := [];
  sky m := Sc 0%Q;
  mean_model sed_of_object := sed_of_object;
  getenv n := if String.eqb n "APPS" then Some "/opt" else None;
  listdir d := Ok demo_listing;
  random_normal n := repeat 0.5%Q n
|}.

(** The keyword dictionary of a call [load_obs] with every entry of
    [run_params] as a keyword: ['snr'] and ['add_noise'] are taken by the
    two named arguments, and the rest is [kwargs]. *)
Definition run_kwargs : gmap string pyval :=
  delete "snr" (delete "add_noise" (list_to_map run_params)).

(** The two-component run of the demo: the masses and the redshift of
    [run_params], a source fresh from its constructor, and an engine whose
    component [i] has the spectrum [[1 + i; 2; 3]] and the surviving
    fraction one half. *)
Definition demo : Host Q :=
  demo_host (fun i => [1 + inject_Z (Z.of_nat i); 2; 3]%Q) (fun _ => 0.5%Q).

Definition demo_source : SpatialSource Q := {| sps_params := ∅ |}.

Definition demo_params : gmap string (pval Q) :=
  <["mass" := VNum (V1 [4e10; 1e10]%Q)]> (<["zred" := VNum (V1 [1%Q])]> ∅).

Definition demo_filter (n : string) (points : nat) : Filter Q :=
  {| filt_name := n; transmission := repeat (1%Q, 1%Q) points |}.

(** The same engine with one spectrum and one fraction for every
    component. *)
Definition twin : Host Q :=
  demo_host (fun _ => [1; 2; 3]%Q) (fun _ => 0.5%Q).

(** Three filters, the first and the last of one name. *)
Definition demo_filters : list (Filter Q) :=
  [ demo_filter "f606w_goodsn" 2; demo_filter "f435w_goodsn" 1;
    demo_filter "f606w_goodsn" 2 ].

(** ** Hosts that differ in one library *)

(** The host [h] with another cosmology. *)
Definition with_cosmology {F : Type} (h : Host F) (ld : F → F) : Host F := {|
  lightspeed := lightspeed;
  jansky_cgs := jansky_cgs;
  to_cgs_at_10pc := to_cgs_at_10pc;
  ab_mag := ab_mag;
  load_filters := load_filters;
  source_init := source_init;
  update := update;
  ssp_component := ssp_component;
  luminosity_distance := ld;
  configure := configure;
  set_parameters := set_parameters;
  theta := theta;
  sky := sky;
  mean_model := mean_model;
  getenv := getenv;
  listdir := listdir;
  random_normal := random_normal
|}.

(** The host [h] with another environment and another file system. *)
Definition with_files {F : Type} (h : Host F) (env : string → option string)
    (dir : string → result (list string)) : Host F := {|
  lightspeed := lightspeed;
  jansky_cgs := jansky_cgs;
  to_cgs_at_10pc := to_cgs_at_10pc;
  ab_mag := ab_mag;
  load_filters := load_filters;
  source_init := source_init;
  update := update;
  ssp_component := ssp_component;
  luminosity_distance := luminosity_distance;
  configure := configure;
  set_parameters := set_parameters;
  theta := theta;
  sky := sky;
  mean_model := mean_model;
  getenv := env;
  listdir := dir;
  random_normal := random_normal
|}.

(** The demo host without the variable [APPS]. *)
Definition demo_unset : Host Q :=
  with_files demo (fun _ => None) (fun _ => Ok demo_listing).

(** The demo host over a directory with two filter files. *)
Definition demo_sparse : Host Q :=
  with_files demo (fun _ => Some "/opt")
    (fun _ => Ok ["f435w_goodsn.par"; "u_goodsn.par"]).

(** The demo engine with the surviving fractions one half and one third. *)
Definition demo_fading : Host Q :=
  demo_host (fun i => [1 + inject_Z (Z.of_nat i); 2; 3]%Q)
            (fun i => (1 # Pos.of_nat (2 + i))%Q).

(** ** Priors *)

(** The bounds [mini] and [maxi] of a prior. *)
Definition prior_range (p : Prior) : Q * Q :=
  match p with
  | TopHat mini maxi => (mini, maxi)
  | LogUniform mini maxi => (mini, maxi)
  end.

(** [q] lies within the bounds of the prior. *)
Definition within (p : Prior) (q : Q) : Prop :=
  (fst (prior_range p) <= q)%Q ∧ (q <= snd (prior_range p))%Q.

(** ** Photometry by projection

    What the statements on the deduplication are phrased with: the steps of
    [get_spectrum] around a projection of one's choice, the projection of a
    list of filters one by one, and the photometry with and without the
    deduplication. *)

Section Projection.
Context {F : Type} {num : Numeric F} {host : Host F}.









End Projection.


(** The engine of [twin] with nothing surviving: the fraction of every
    component is zero. *)
Definition demo_spent : Host Q :=
  demo_host (fun _ => [1; 2; 3]%Q) (fun _ => 0%Q).

(** The demo parameters with the masses in units of stellar mass. *)
Definition demo_params_mstar : gmap string (pval Q) :=
  <["mass_units" := VStr "mstar"]> demo_params.


(** ** The catalog by reference

    Python's [model_params] is a list of references to dictionaries: two
    positions may hold one dictionary, and a write through one position is
    seen through the other.  [cat_refs] are the positions, each with the
    identity of the dictionary it holds, and [cat_dicts] are the dictionaries
    by identity. *)
Record Catalog : Type := {
  cat_refs : list nat;
  cat_dicts : nat → ParameterSpec
}.

(** The catalog as the list of its values. *)
Definition cat_view (c : Catalog) : list ParameterSpec :=
  List.map (cat_dicts c) (cat_refs c).

(** [d['init'] = v] on the dictionary of identity [r]. *)
Definition write_init (r : nat) (v : pyval) (dicts : nat → ParameterSpec)
    : nat → ParameterSpec :=
  fun r' => if Nat.eqb r' r then set_init v (dicts r') else dicts r'.

Section Shared.
Context {F : Type} {num : Numeric F} {host : Host F}.

(** [load_model(zred=0.0, **extras)] over the catalog by reference. *)
Definition load_model_shared (zred : pyval) (model_params : Catalog)
    : result (SpatialSedModel F * Catalog) :=
  let pn := List.map name (cat_view model_params) in
  zind ← py_index "zred" pn;
  r ← match cat_refs model_params !! zind with
      | Some r => Ok r
      | None => Err (IndexError "list index out of range")
      end;
  let model_params :=
    {| cat_refs := cat_refs model_params;
       cat_dicts := write_init r zred (cat_dicts model_params) |} in
  Ok ({| mod_config := cat_view model_params;
         mod_params := configure (cat_view model_params);
         _spec := None |},
      model_params).

End Shared.

(** The list [model_params + model_params]: 36 positions over the 18
    dictionaries of the module. *)
Definition demo_doubled : Catalog :=
  {| cat_refs := seq 0 18 ++ seq 0 18;
     cat_dicts := fun r =>
       nth r model_params
           {| name := ""; N := 0; isfree := false; init := PyNone;
              init_disp := None; units := None; reinit := None;
              prior := None |} |}.

(** * Properties *)

(** Rewriting with the equation of one statement of a call, and moving on
    to the next. *)
Ltac step E := rewrite E; cbn beta iota zeta delta [mbind result_bind].

(** ** The monad *)

Lemma bind_Ok {A B} (m : result A) (f : A → result B) (b : B) :
  m ≫= f = Ok b → ∃ a, m = Ok a ∧ f a = Ok b.
Proof. destruct m as [a|e]; [eauto | discriminate]. Qed.

Lemma fmap_Ok {A B} (m : result A) (f : A → B) (b : B) :
  f <$> m = Ok b → ∃ a, m = Ok a ∧ b = f a.
Proof. destruct m as [a|e]; [intros [= <-]; eauto | discriminate]. Qed.

Lemma raises_bind {A B} (m : result A) (f : A → result B) :
  (∀ a, m = Ok a → raises (f a)) → raises (m ≫= f).
Proof.
  destruct m as [a|e]; [intros H; exact (H a eq_refl)|].
  intros _. exists e. reflexivity.
Qed.

Lemma map_fmap {A B} (f : A → B) (l : list A) : List.map f l = f <$> l.
Proof. reflexivity. Qed.

Lemma raises_not_returns {A} (m : result A) : raises m → ¬ returns m.
Proof. intros [e He] [a Ha]. congruence. Qed.

(** ** The parameter catalog *)

(** C1, as stated, fails: the catalog does not have 17 entries. *)
Lemma model_params_not_17_entries : length model_params ≠ 17.
Proof. vm_compute. discriminate. Qed.

(** C1, amended: the catalog has exactly 18 entries, and their names,
    multiplicities and free flags are, in order, the 18 rows of the parameter
    table. *)
Theorem model_params_table :
  length model_params = 18 ∧
  List.map table_row model_params =
    [ ("zred", 1, false); ("sfh", 1, false); ("mass", 2, true);
      ("logzsol", 2, true); ("pmetals", 1, false); ("tau", 2, true);
      ("tage", 2, true); ("dust2", 2, true); ("dust_index", 1, false);
      ("dust1_index", 1, false); ("dust_type", 1, false);
      ("add_dust_emission", 1, false); ("duste_umin", 1, false);
      ("duste_qpah", 1, false); ("add_neb_emission", 1, false);
      ("gas_logz", 1, false); ("gas_logu", 1, false);
      ("phot_jitter", 1, false) ].
Proof. split; reflexivity. Qed.

Lemma theta_slots_length (cat : list ParameterSpec) :
  length (theta_slots cat) = sum_list (List.map N (free_params cat)).
Proof.
  unfold theta_slots. induction (free_params cat) as [|p ps IH]; simpl.
  - reflexivity.
  - rewrite length_app, length_map, length_seq, IH. reflexivity.
Qed.

(** C9: the free parameters of the catalog are mass, logzsol, tau, tage and
    dust2, in this order, each of multiplicity 2, and the Theta vector, one
    slot per free parameter and unit of multiplicity in catalog order, has
    length 10. *)
Theorem free_params_theta :
  List.map name (free_params model_params) =
    ["mass"; "logzsol"; "tau"; "tage"; "dust2"] ∧
  Forall (fun p => N p = 2) (free_params model_params) ∧
  theta_slots model_params =
    [ ("mass", 0); ("mass", 1); ("logzsol", 0); ("logzsol", 1);
      ("tau", 0); ("tau", 1); ("tage", 0); ("tage", 1);
      ("dust2", 0); ("dust2", 1) ] ∧
  ndim model_params = 10.
Proof.
  split; [reflexivity|]. split; [|split; reflexivity].
  unfold free_params, model_params; simpl. repeat constructor.
Qed.

(** ** load_model *)

Lemma py_index_lookup (x : string) (l : list string) (i : nat) :
  py_index x l = Ok i → l !! i = Some x.
Proof.
  revert i. induction l as [|y l IH]; intros i; simpl; [discriminate|].
  destruct (String.eqb_spec y x) as [->|Hne].
  - intros [= <-]. reflexivity.
  - intros H. apply fmap_Ok in H as (j & Hj & ->). simpl. auto.
Qed.

Section LoadModel.
Context {F : Type} {num : Numeric F} {host : Host F}.

(** What one call does to any catalog that has a "zred" entry. *)
Lemma load_model_spec (zred : pyval) (cat : list ParameterSpec) (zind : nat) :
  py_index "zred" (List.map name cat) = Ok zind →
  load_model zred cat =
    Ok ({| mod_config := alter (set_init zred) zind cat;
           mod_params := configure (alter (set_init zred) zind cat);
           _spec := None |},
        alter (set_init zred) zind cat).
Proof. intros H. unfold load_model. rewrite H. reflexivity. Qed.

Lemma load_model_names (zred : pyval) (cat : list ParameterSpec) (zind : nat) :
  List.map name (alter (set_init zred) zind cat) = List.map name cat.
Proof.
  revert zind. induction cat as [|p cat IH]; intros [|i]; simpl; try reflexivity.
  f_equal. apply IH.
Qed.

(** A call without a "zred" entry in the catalog raises. *)
Lemma load_model_no_zred (zred : pyval) (cat : list ParameterSpec) :
  "zred" ∉ List.map name cat → raises (load_model zred cat).
Proof.
  intros Hn. unfold load_model.
  destruct (py_index "zred" (List.map name cat)) as [i|e] eqn:E.
  - apply py_index_lookup in E. exfalso. apply Hn.
    apply list_elem_of_lookup. eauto.
  - exists e. reflexivity.
Qed.

End LoadModel.

(** C6: two calls of [load_model] in a row, with the redshifts [z1] then
    [z2], on a catalog that has a "zred" entry (at [zind], its first): both
    return; afterwards the "zred" entry of the catalog has [z2] as its init
    and is otherwise as it was; every other entry is as it was; and the
    second model is built over the catalog as the two calls left it. *)
Theorem load_model_twice {F : Type} {num : Numeric F} {host : Host F}
    (z1 z2 : pyval) (cat : list ParameterSpec) (zind : nat) :
  py_index "zred" (List.map name cat) = Ok zind →
  ∃ (m1 m2 : SpatialSedModel F) (c1 c2 : list ParameterSpec),
    load_model z1 cat = Ok (m1, c1) ∧
    load_model z2 c1 = Ok (m2, c2) ∧
    (∃ p, cat !! zind = Some p ∧ name p = "zred" ∧
          c2 !! zind = Some (set_init z2 p) ∧ init (set_init z2 p) = z2) ∧
    (∀ i, i ≠ zind → c2 !! i = cat !! i) ∧
    length c2 = length cat ∧
    mod_config m2 = c2.
Proof.
  intros H0.
  pose proof (load_model_spec z1 cat zind H0) as H1.
  assert (H0' : py_index "zred"
            (List.map name (alter (set_init z1) zind cat)) = Ok zind)
    by (rewrite load_model_names; exact H0).
  pose proof (load_model_spec z2 _ zind H0') as H2.
  eexists _, _, _, _. split; [exact H1|]. split; [exact H2|].
  apply py_index_lookup in H0. rewrite list_lookup_fmap in H0.
  destruct (cat !! zind) as [p|] eqn:Hp; [|discriminate].
  injection H0 as Hname.
  split; [|split; [|split]].
  - exists p. split; [reflexivity|]. split; [exact Hname|].
    split; [|reflexivity].
    rewrite !list_lookup_alter_eq, Hp. reflexivity.
  - intros i Hi. rewrite !list_lookup_alter_ne by congruence. reflexivity.
  - rewrite !length_alter. reflexivity.
  - reflexivity.
Qed.

(** The module's catalog, two calls with redshifts 0.5 and 2. *)
Lemma load_model_twice_witness :
  py_index "zred" (List.map name model_params) = Ok 0 ∧
  ∃ (m1 m2 : SpatialSedModel Q) (c1 c2 : list ParameterSpec),
    load_model (host := demo) (PyFloat 0.5) model_params = Ok (m1, c1) ∧
    load_model (host := demo) (PyFloat 2) c1 = Ok (m2, c2) ∧
    (∃ p, model_params !! 0 = Some p ∧ name p = "zred" ∧
          c2 !! 0 = Some (set_init (PyFloat 2) p) ∧
          init (set_init (PyFloat 2) p) = PyFloat 2) ∧
    (∀ i, i ≠ 0 → c2 !! i = model_params !! i) ∧
    length c2 = length model_params ∧
    mod_config m2 = c2.
Proof.
  split; [reflexivity|].
  apply (load_model_twice (PyFloat 0.5) (PyFloat 2) model_params 0).
  reflexivity.
Defined.

(** ** get_spectrum: the two paths that cannot return *)

Section NeverReturns.
Context {F : Type} {num : Numeric F} {host : Host F}.

(** The body of the wavelength-calibration branch never gives [b]: its
    last statement reads the global name [chebval]. *)
Lemma wavecal_shift_raises (params : gmap string (pval F)) (wave : list F) :
  raises (wavecal_shift params wave).
Proof.
  unfold wavecal_shift.
  do 3 (apply raises_bind; intros ? _).
  exists (NameError "chebval"). reflexivity.
Qed.

(** Where the statements before it succeed, the exception is the
    [NameError]. *)
Lemma wavecal_shift_NameError (params : gmap string (pval F))
    (w : F) (wave : list F) (a : nd F) :
  params !! "wavecal_coeffs" = Some (VNum a) →
  wavecal_shift params (w :: wave) = Err (NameError "chebval").
Proof.
  intros H. unfold wavecal_shift, getitem. rewrite H. reflexivity.
Qed.

Lemma get_spectrum_wavecal_raises (self : SpatialSource F)
    (outwave : option (nd F)) (filters : option (list (Filter F)))
    (component : selector) (params : gmap string (pval F)) :
  is_Some (update params (sps_params self) !! "wavecal_coeffs") →
  raises (get_spectrum self outwave filters component params).
Proof.
  intros Hw. unfold get_spectrum.
  apply raises_bind. intros [[[wave spectrum] mfrac] self'] Hg.
  assert (Hs : sps_params self' = update params (sps_params self)).
  { unfold get_galaxy_spectrum in Hg.
    repeat (apply bind_Ok in Hg as (? & _ & Hg)).
    injection Hg as _ _ _ <-. reflexivity. }
  cbn beta iota zeta. rewrite Hs.
  apply raises_bind. intros a _.
  rewrite (bool_decide_eq_true_2 _ Hw).
  apply raises_bind. intros b Hb.
  destruct (wavecal_shift_raises (update params (sps_params self)) wave)
    as [e He].
  congruence.
Qed.

Lemma get_spectrum_no_filters_raises (self : SpatialSource F)
    (outwave : option (nd F)) (component : selector)
    (params : gmap string (pval F)) :
  raises (get_spectrum self outwave None component params).
Proof.
  unfold get_spectrum.
  apply raises_bind. intros [[[wave spectrum] mfrac] self'] _.
  cbn beta iota zeta.
  do 4 (apply raises_bind; intros ? _).
  apply raises_bind. intros [phot filter_ind] Hp.
  injection Hp as <- <-.
  cbn beta iota zeta.
  do 8 (apply raises_bind; intros ? _).
  exists (UnboundLocalError "filter_ind"). reflexivity.
Qed.

End NeverReturns.

(** C2, on the code: a call of [get_spectrum] with [filters=None] never
    returns, whatever the source, the parameters and the host; the
    [else] branch binds [phot = 0.0] and leaves [filter_ind] unbound, and the
    last statement reads [filter_ind].  On the demo run the exception is
    [UnboundLocalError] for [filter_ind]. *)
Theorem get_spectrum_filters_None :
  (∀ (F : Type) (num : Numeric F) (host : Host F) (self : SpatialSource F)
     (outwave : option (nd F)) (component : selector)
     (params : gmap string (pval F)),
     ¬ returns (get_spectrum self outwave None component params)) ∧
  get_spectrum (host := demo) demo_source None None (CInt (-1)) demo_params
    = Err (UnboundLocalError "filter_ind").
Proof.
  split.
  - intros. apply raises_not_returns, get_spectrum_no_filters_raises.
  - vm_compute. reflexivity.
Qed.

(** C3, on the code: a call of [get_spectrum] whose parameter mapping has a
    ['wavecal_coeffs'] key never returns, whatever the source, the filters
    and the host: the branch calls [chebval], a name the module does not
    bind.  On the demo run with one coefficient the exception is [NameError]
    for [chebval]. *)
Theorem get_spectrum_wavecal_coeffs :
  (∀ (F : Type) (num : Numeric F) (host : Host F) (self : SpatialSource F)
     (outwave : option (nd F)) (filters : option (list (Filter F)))
     (component : selector) (params : gmap string (pval F)),
     is_Some (update params (sps_params self) !! "wavecal_coeffs") →
     ¬ returns (get_spectrum self outwave filters component params)) ∧
  ("chebval" ∉ module_names) ∧
  get_spectrum (host := demo) demo_source None
    (Some [demo_filter "f435w_goodsn" 1]) (CInt (-1))
    (<["wavecal_coeffs" := VNum (V1 [30%Q])]> demo_params)
    = Err (NameError "chebval").
Proof.
  split; [|split].
  - intros. apply raises_not_returns. by apply get_spectrum_wavecal_raises.
  - apply (bool_decide_eq_true_1 _). vm_compute. reflexivity.
  - vm_compute. reflexivity.
Qed.

(** ** load_obs *)

Section LoadObs.
Context {F : Type} {num : Numeric F} {host : Host F}.

(** What a returning call has computed: the noiseless spectrum and
    photometry of [mean_model], the uncertainty [phot / snr], and the
    photometry stored, which is [phot] itself without noise and
    [phot + normal * (phot / snr)] with it. *)
Lemma load_obs_returns (snr : nd F) (add_noise : bool)
    (kwargs : gmap string pyval) (cat cat' : list ParameterSpec)
    (obs : Obs F) :
  load_obs snr add_noise kwargs cat = Ok (obs, cat') →
  ∃ (spec phot unc mag : nd F) (n : nat),
    np_binop fdiv phot snr = Ok unc ∧
    py_len phot = Ok n ∧
    (if add_noise
     then ∃ pnoise, np_binop fmul (V1 (random_normal n)) unc = Ok pnoise ∧
                    np_binop fadd phot pnoise = Ok mag
     else mag = phot) ∧
    obs = {| filters := filters obs; component := component obs;
             wavelength := wavelength obs;
             normalization_guess := None; lnwavegrid := None;
             maggies := Some mag; maggies_unc := Some unc;
             mock_snr := Some snr; phot_mask := Some (repeat true n);
             true_spectrum := Some spec; true_maggies := Some phot;
             mock_params := mock_params obs |}.
Proof.
  intros H. unfold load_obs in H.
  apply bind_Ok in H as (filter_folder & _ & H).
  apply bind_Ok in H as (fname_all & _ & H).
  cbn zeta in H.
  apply bind_Ok in H as (comp & _ & H).
  apply bind_Ok in H as (fs & _ & H).
  apply bind_Ok in H as ([model cat1] & _ & H).
  cbn beta iota zeta in H.
  apply bind_Ok in H as ([[[[spec phot] extras] model'] sps'] & _ & H).
  cbn beta iota zeta in H.
  apply bind_Ok in H as (unc & Hunc & H).
  apply bind_Ok in H as (mag & Hmag & H).
  apply bind_Ok in H as (n & Hn & H).
  injection H as <- <-.
  exists spec, phot, unc, mag, n.
  split; [exact Hunc|]. split; [exact Hn|]. split; [|reflexivity].
  destruct add_noise.
  - apply bind_Ok in Hmag as (n' & Hn' & Hmag).
    apply bind_Ok in Hmag as (pnoise & Hp & Hmag).
    assert (n' = n) as -> by congruence. eauto.
  - congruence.
Qed.

(** The noiseless outputs do not depend on the noise switch. *)
Lemma load_obs_noise_switch (snr : nd F) (b1 b2 : bool)
    (kwargs : gmap string pyval) (cat c1 c2 : list ParameterSpec)
    (o1 o2 : Obs F) :
  load_obs snr b1 kwargs cat = Ok (o1, c1) →
  load_obs snr b2 kwargs cat = Ok (o2, c2) →
  true_maggies o1 = true_maggies o2 ∧ maggies_unc o1 = maggies_unc o2 ∧
  true_spectrum o1 = true_spectrum o2.
Proof.
  intros H1 H2. unfold load_obs in H1, H2.
  destruct (match getenv "APPS" with
            | Some apps => Ok (apps +:+ "/spatialsed/filters/")
            | None => Err (TypeError "unsupported operand type(s) for +")
            end) as [filter_folder|]; [|discriminate].
  cbn in H1, H2.
  destruct (listdir filter_folder) as [fname_all|]; [|discriminate].
  cbn in H1, H2.
  match type of H1 with (?m ≫= _) = _ => destruct m as [comp|] end;
    [|discriminate].
  cbn in H1, H2.
  match type of H1 with (?m ≫= _) = _ => destruct m as [fs|] end;
    [|discriminate].
  cbn in H1, H2.
  match type of H1 with (?m ≫= _) = _ => destruct m as [[model cat1]|] end;
    [|discriminate].
  cbn in H1, H2.
  match type of H1 with (?m ≫= _) = _ =>
    destruct m as [[[[[spec phot] extras] model'] sps']|] end;
    [|discriminate].
  cbn in H1, H2.
  match type of H1 with (?m ≫= _) = _ => destruct m as [unc|] end;
    [|discriminate].
  cbn in H1, H2.
  apply bind_Ok in H1 as (mag1 & _ & H1).
  apply bind_Ok in H2 as (mag2 & _ & H2).
  apply bind_Ok in H1 as (n1 & _ & H1).
  apply bind_Ok in H2 as (n2 & _ & H2).
  injection H1 as <- _. injection H2 as <- _. auto.
Qed.

End LoadObs.

(** C4: a call of [load_obs] with [add_noise=False] that returns stores the
    same array under ['maggies'] and under ['true_maggies']: the noiseless
    photometry, with no term added. *)
Theorem load_obs_without_noise {F : Type} {num : Numeric F} {host : Host F}
    (snr : nd F) (kwargs : gmap string pyval)
    (cat cat' : list ParameterSpec) (obs : Obs F) :
  load_obs snr false kwargs cat = Ok (obs, cat') →
  ∃ phot, true_maggies obs = Some phot ∧ maggies obs = Some phot.
Proof.
  intros H. apply load_obs_returns in H
    as (spec & phot & unc & mag & n & _ & _ & -> & ->).
  exists phot. split; reflexivity.
Qed.

(** C10: a call of [load_obs] that returns, with noise or without, stores
    under ['maggies_unc'] the array [true_maggies / snr] (numpy's division,
    with its broadcasting); and the call with the noise switch the other way
    round, if it returns, stores the same ['maggies_unc'] and the same
    ['true_maggies']. *)
Theorem load_obs_uncertainty {F : Type} {num : Numeric F} {host : Host F}
    (snr : nd F) (add_noise : bool) (kwargs : gmap string pyval)
    (cat cat' : list ParameterSpec) (obs : Obs F) :
  load_obs snr add_noise kwargs cat = Ok (obs, cat') →
  (∃ phot unc, true_maggies obs = Some phot ∧ maggies_unc obs = Some unc ∧
               np_binop fdiv phot snr = Ok unc) ∧
  (∀ obs2 cat2,
     load_obs snr (negb add_noise) kwargs cat = Ok (obs2, cat2) →
     maggies_unc obs2 = maggies_unc obs ∧ true_maggies obs2 = true_maggies obs).
Proof.
  intros H. split.
  - apply load_obs_returns in H
      as (spec & phot & unc & mag & n & Hunc & _ & _ & ->).
    exists phot, unc. auto.
  - intros obs2 cat2 H2.
    destruct (load_obs_noise_switch _ _ _ _ _ _ _ _ _ H2 H) as (? & ? & _).
    auto.
Qed.

(** The demo run without noise. *)
Lemma load_obs_without_noise_witness :
  ∃ obs cat',
    load_obs (host := demo) (Sc 20%Q) false run_kwargs model_params
      = Ok (obs, cat') ∧
    ∃ phot, true_maggies obs = Some phot ∧ maggies obs = Some phot.
Proof.
  destruct (load_obs (host := demo) (Sc 20%Q) false run_kwargs model_params)
    as [[obs cat']|e] eqn:E.
  - exists obs, cat'. split; [reflexivity|].
    exact (load_obs_without_noise _ _ _ _ _ E).
  - vm_compute in E. discriminate E.
Defined.

(** The demo run with noise. *)
Lemma load_obs_uncertainty_witness :
  ∃ obs cat',
    load_obs (host := demo) (Sc 20%Q) true run_kwargs model_params
      = Ok (obs, cat') ∧
    (∃ phot unc, true_maggies obs = Some phot ∧ maggies_unc obs = Some unc ∧
                 np_binop fdiv phot (Sc 20%Q) = Ok unc) ∧
    (∀ obs2 cat2,
       load_obs (host := demo) (Sc 20%Q) (negb true) run_kwargs model_params
         = Ok (obs2, cat2) →
       maggies_unc obs2 = maggies_unc obs ∧
       true_maggies obs2 = true_maggies obs).
Proof.
  destruct (load_obs (host := demo) (Sc 20%Q) true run_kwargs model_params)
    as [[obs cat']|e] eqn:E.
  - exists obs, cat'. split; [reflexivity|].
    exact (load_obs_uncertainty _ _ _ _ _ _ E).
  - vm_compute in E. discriminate E.
Defined.

(** ** The flux clamp *)

Section Clamp.
Context {F : Type} {num : Numeric F}.

Lemma flat_nd_map (f : F → F) (a : nd F) :
  flat (nd_map f a) = List.map f (flat a).
Proof.
  destruct a as [x|v|m]; simpl; try reflexivity.
  induction m as [|r m IH]; simpl; [reflexivity|].
  rewrite map_app, IH. reflexivity.
Qed.

(** Without a positive value there is no minimum to take, the [except]
    clause is entered, and the spectrum is left as it is. *)
Lemma flux_clamp_no_positive (spec : nd F) :
  (∀ v, v ∈ flat spec → fltb (flit 0) v = false) →
  flux_clamp spec = spec.
Proof.
  intros H. unfold flux_clamp, clamp_threshold.
  destruct (_ ← py_len spec; _) as [inv|]; [|reflexivity].
  simpl.
  assert (E : List.filter (fun v => fltb (flit 0) v) (flat spec) = []).
  { induction (flat spec) as [|x l IH]; [reflexivity|]. simpl.
    rewrite (H x) by (left). apply IH. intros v Hv. apply H. by right. }
  rewrite E. reflexivity.
Qed.

End Clamp.

Section SedClamp.
Context {F : Type} {num : Numeric F} {host : Host F}.

(** A returning call of [sed] has run the clamp on the normalised spectrum
    of the source, added the sky to what the clamp gave, and cached the
    sum. *)
Lemma sed_returns_clamped (self self' : SpatialSedModel F) (th : list F)
    (obs : Obs F) (sps sps' : SpatialSource F) (spec phot extras : nd F) :
  sed self th obs sps = Ok (spec, phot, extras, self', sps') →
  ∃ (raw scaled : nd F) (self1 : SpatialSedModel F),
    np_inplace fmul raw (Sc (default (flit 1.0) (normalization_guess obs)))
      = Ok scaled ∧
    np_binop fadd (flux_clamp scaled) (sky self1) = Ok spec ∧
    _spec self' = Some spec.
Proof.
  intros H. unfold sed in H.
  apply bind_Ok in H as (ow & _ & H).
  apply bind_Ok in H as (fs & _ & H).
  apply bind_Ok in H as (params & _ & H).
  apply bind_Ok in H as ([[[raw phot0] extras0] sps0] & _ & H).
  cbn beta iota zeta in H.
  apply bind_Ok in H as (scaled & Hscaled & H).
  apply bind_Ok in H as (spec0 & Hsky & H).
  injection H as <- _ _ <- _.
  eexists raw, scaled, _. split; [exact Hscaled|]. split; [exact Hsky|].
  reflexivity.
Qed.

End SedClamp.

(** Comparisons of the exact instance. *)
Lemma Q_fltb_lt (x y : Q) : fltb x y = true ↔ (x < y)%Q.
Proof.
  simpl. rewrite negb_true_iff. split.
  - intros H. apply Qnot_le_lt. intros Hle.
    apply Qle_bool_iff in Hle. congruence.
  - intros H. destruct (Qle_bool y x) eqn:E; [|reflexivity].
    apply Qle_bool_iff in E. exfalso. exact (Qlt_not_le _ _ H E).
Qed.

Lemma Q_fltb_ge (x y : Q) : fltb x y = false ↔ (y <= x)%Q.
Proof.
  simpl. rewrite negb_false_iff. apply Qle_bool_iff.
Qed.

(** [fold_left fmin] from [x] over [l] ends on an element of [x :: l] that
    is below all of them. *)
Lemma fold_fmin_min (l : list Q) (x : Q) :
  fold_left fmin l x ∈ x :: l ∧
  ∀ v, v ∈ x :: l → (fold_left fmin l x <= v)%Q.
Proof.
  revert x. induction l as [|y l IH]; intros x; simpl.
  - split; [left|]. intros v Hv. apply list_elem_of_singleton in Hv as ->.
    apply Qle_refl.
  - destruct (IH (fmin x y)) as [Hin Hle]. split.
    + apply elem_of_cons in Hin as [Hin|Hin].
      * rewrite Hin. unfold fmin. destruct (fltb y x); [right; left | left].
      * right. by right.
    + intros v Hv.
      assert (Hx : (fmin x y <= x)%Q ∧ (fmin x y <= y)%Q).
      { unfold fmin. destruct (fltb y x) eqn:E.
        - apply Q_fltb_lt in E. split; [by apply Qlt_le_weak | apply Qle_refl].
        - apply Q_fltb_ge in E. split; [apply Qle_refl | exact E]. }
      destruct Hx as [Hx Hy].
      apply elem_of_cons in Hv as [->|Hv].
      * eapply Qle_trans; [apply Hle; left | exact Hx].
      * apply elem_of_cons in Hv as [->|Hv].
        -- eapply Qle_trans; [apply Hle; left | exact Hy].
        -- apply Hle. by right.
Qed.

Lemma np_min_spec (l : list Q) (m : Q) :
  np_min l = Ok m → m ∈ l ∧ ∀ v, v ∈ l → (m <= v)%Q.
Proof.
  destruct l as [|x l]; simpl; [discriminate|].
  intros [= <-]. apply fold_fmin_min.
Qed.

Lemma elem_of_positive_filter (l : list Q) (v : Q) :
  v ∈ List.filter (fun v => fltb (flit 0) v) l ↔ v ∈ l ∧ (0 < v)%Q.
Proof.
  rewrite !list_elem_of_In, filter_In, Q_fltb_lt. reflexivity.
Qed.

Lemma py_len_positive (spec : nd Q) (n : nat) (v : Q) :
  py_len spec = Ok n → v ∈ flat spec → n ≠ 0.
Proof.
  destruct spec as [x|l|m]; simpl; [discriminate| |]; intros [= <-] Hv.
  - destruct l; [by apply elem_of_nil in Hv | discriminate].
  - destruct m; [by apply elem_of_nil in Hv | discriminate].
Qed.


(** ** get_galaxy_spectrum on two components *)

Section TwoComponents.
Context {F : Type} {num : Numeric F} {host : Host F}.

Lemma weighted_mean_length (a b : F) (s0 s1 : list F) :
  length s1 = length s0 → length (weighted_mean a b s0 s1) = length s0.
Proof.
  intros H. unfold weighted_mean.
  rewrite length_map, length_zip_with, !length_map. lia.
Qed.

(** The call on two components whose spectra have one length, written
    out. *)
Lemma get_galaxy_spectrum_two (self : SpatialSource F)
    (params : gmap string (pval F)) (m1 m2 f0 f1 : F)
    (w0 w1 s0 s1 : list F) :
  let sparams := update params (sps_params self) in
  let a := if mass_units_is_mstar sparams then fdiv m1 f0 else m1 in
  let b := if mass_units_is_mstar sparams then fdiv m2 f1 else m2 in
  mass_array sparams = Ok [m1; m2] →
  ssp_component sparams 0 = Ok (w0, s0, f0) →
  ssp_component sparams 1 = Ok (w1, s1, f1) →
  length s1 = length s0 →
  get_galaxy_spectrum self params =
    (stacked ← np_squeeze_rows [s0; s1; weighted_mean a b s0 s1];
     Ok (w1, stacked,
         V1 [f0; f1; fdiv (fadd (fmul a f0) (fmul b f1)) (fadd a b)],
         {| sps_params := sparams |})).
Proof.
  intros sparams a b Hm H0 H1 Hlen.
  unfold get_galaxy_spectrum. fold sparams.
  cbn beta iota zeta. cbn [sps_params]. rewrite Hm.
  cbn [mbind result_bind length seq for_each]. rewrite H0, H1.
  cbn [mbind result_bind List.map fst snd last lookup_local].
  unfold np_array, rectangular. cbn [forallb].
  rewrite (proj2 (Nat.eqb_eq _ _) Hlen). cbn [andb].
  unfold np_dot.
  subst a b. destruct (mass_units_is_mstar sparams);
    cbn [zip_with length Nat.eqb mbind result_bind zip fold_left fst snd
         np_binop np_sum vdot np_squeeze_list app];
    reflexivity.
Qed.

End TwoComponents.

Lemma weighted_mean_same (a b : Q) (s : list Q) :
  ¬ (a + b == 0)%Q → Forall2 Qeq (weighted_mean a b s s) s.
Proof.
  intros Hab. unfold weighted_mean.
  induction s as [|x s IH]; simpl; constructor; [|exact IH].
  field. exact Hab.
Qed.

(** C7, amended: in exact arithmetic.  Two components with the same
    spectrum [s] and the same surviving fraction [f], and two positive
    masses; with [mass_units] set to ['mstar'] the masses are divided by
    [f], which is then taken different from zero.  The call returns; the
    stack it returns is [s], [s] and a last row equal to [s]; the fractions
    it returns are [f], [f] and a last one equal to [f]. *)
Theorem composite_of_identical_components (host : Host Q)
    (self : SpatialSource Q) (params : gmap string (pval Q))
    (m1 m2 f : Q) (w0 w1 s : list Q) :
  let sparams := update params (sps_params self) in
  mass_array sparams = Ok [m1; m2] →
  ssp_component sparams 0 = Ok (w0, s, f) →
  ssp_component sparams 1 = Ok (w1, s, f) →
  (0 < m1)%Q → (0 < m2)%Q →
  (mass_units_is_mstar sparams = true → ¬ (f == 0)%Q) →
  ∃ (composite : list Q) (fsum : Q) (stacked : nd Q),
    get_galaxy_spectrum self params =
      Ok (w1, stacked, V1 [f; f; fsum], {| sps_params := sparams |}) ∧
    np_squeeze_rows [s; s; composite] = Ok stacked ∧
    ((2 ≤ length s)%nat → stacked = M2 [s; s; composite]) ∧
    Forall2 Qeq composite s ∧
    (fsum == f)%Q.
Proof.
  intros sparams Hm H0 H1 Hm1 Hm2 Hf.
  pose proof (get_galaxy_spectrum_two self params m1 m2 f f w0 w1 s s
                Hm H0 H1 eq_refl) as Hg.
  cbn zeta in Hg. fold sparams in Hg.
  set (a := if mass_units_is_mstar sparams then fdiv m1 f else m1) in *.
  set (b := if mass_units_is_mstar sparams then fdiv m2 f else m2) in *.
  assert (Hsum : (0 < m1 + m2)%Q).
  { apply (Qplus_lt_le_compat 0 m1 0 m2);
      [assumption | by apply Qlt_le_weak]. }
  assert (Hne : ¬ (a + b == 0)%Q).
  { subst a b. destruct (mass_units_is_mstar sparams).
    - specialize (Hf eq_refl). simpl. intros E.
      assert (E' : (m1 + m2 == (m1 / f + m2 / f) * f)%Q)
        by (field; exact Hf).
      rewrite E, Qmult_0_l in E'. rewrite E' in Hsum.
      exact (Qlt_irrefl 0 Hsum).
    - intros E. rewrite E in Hsum. exact (Qlt_irrefl 0 Hsum). }
  assert (Hrect : rectangular [s; s; weighted_mean a b s s] = true).
  { unfold rectangular. cbn [forallb].
    rewrite (weighted_mean_length a b s s eq_refl), Nat.eqb_refl.
    reflexivity. }
  destruct (np_squeeze_rows [s; s; weighted_mean a b s s])
    as [stacked|e] eqn:Es.
  2: { unfold np_squeeze_rows in Es. rewrite Hrect in Es.
       destruct s as [|x [|y s']]; discriminate. }
  exists (weighted_mean a b s s),
         (fdiv (fadd (fmul a f) (fmul b f)) (fadd a b)), stacked.
  split; [exact Hg|]. split; [exact Es|]. split; [|split].
  - intros Hlen. unfold np_squeeze_rows in Es. rewrite Hrect in Es.
    destruct s as [|x [|y s']]; simpl in Hlen; try lia.
    by injection Es as <-.
  - by apply weighted_mean_same.
  - simpl. field. exact Hne.
Qed.

(** C7, as stated, fails: with [mass_units] set to ['mstar'] and a surviving
    fraction of zero, two components of the spectrum [[1; 2; 3]] and the
    positive masses of [run_params] give a composite row that is not
    [[1; 2; 3]]: the masses are divided by the fraction.  In exact
    arithmetic, where [x / 0] is [0], the row is [[0; 0; 0]]; in numpy the
    masses become [inf] and the row [nan]. *)
Lemma composite_of_identical_components_mstar_zero :
  mass_units_is_mstar
    (update (Host := demo_spent) demo_params_mstar (sps_params demo_source))
    = true ∧
  mass_array
    (update (Host := demo_spent) demo_params_mstar (sps_params demo_source))
    = Ok [4e10; 1e10]%Q ∧
  ssp_component (Host := demo_spent)
    (update (Host := demo_spent) demo_params_mstar (sps_params demo_source)) 0
    = Ok (demo_wave, [1; 2; 3]%Q, 0%Q) ∧
  ssp_component (Host := demo_spent)
    (update (Host := demo_spent) demo_params_mstar (sps_params demo_source)) 1
    = Ok (demo_wave, [1; 2; 3]%Q, 0%Q) ∧
  (0 < 4e10)%Q ∧ (0 < 1e10)%Q ∧
  (fun r => snd (fst (fst r)))
    <$> get_galaxy_spectrum (host := demo_spent) demo_source demo_params_mstar
    = Ok (M2 [[1; 2; 3]; [1; 2; 3]; [0; 0; 0]]%Q) ∧
  ¬ Forall2 Qeq [0; 0; 0]%Q [1; 2; 3]%Q.
Proof.
  repeat (split; [vm_compute; reflexivity|]).
  intros H. apply Forall2_cons_1 in H as [H _]. vm_compute in H.
  discriminate H.
Qed.

(** ** np.unique *)

Lemma ascii_compare_trans (a b c : Ascii.ascii) :
  Ascii.compare a b = Lt → Ascii.compare b c = Lt → Ascii.compare a c = Lt.
Proof.
  unfold Ascii.compare. rewrite !N.compare_lt_iff. apply N.lt_trans.
Qed.

Lemma slt_trans (s t u : string) : slt s t → slt t u → slt s u.
Proof.
  unfold slt. revert t u.
  induction s as [|a s IH]; intros [|b t] [|c u]; simpl; try congruence.
  destruct (Ascii.compare a b) eqn:Eab; try discriminate.
  - apply Ascii.compare_eq_iff in Eab as ->.
    destruct (Ascii.compare b c); try congruence. apply IH.
  - intros _. destruct (Ascii.compare b c) eqn:Ebc; try discriminate.
    + apply Ascii.compare_eq_iff in Ebc as <-. rewrite Eab. reflexivity.
    + intros _. rewrite (ascii_compare_trans a b c Eab Ebc). reflexivity.
Qed.

Lemma slt_irrefl (s : string) : ¬ slt s s.
Proof.
  unfold slt. intros H. pose proof (String.compare_antisym s s) as Ha.
  rewrite H in Ha. discriminate.
Qed.

Lemma insert_sorted_elem (x s : string) (l : list string) :
  x ∈ insert_sorted s l ↔ x = s ∨ x ∈ l.
Proof.
  induction l as [|t l IH]; simpl.
  - rewrite list_elem_of_singleton, elem_of_nil. tauto.
  - destruct (String.compare s t) eqn:E.
    + apply String.compare_eq_iff in E as ->. rewrite elem_of_cons. tauto.
    + rewrite elem_of_cons. tauto.
    + rewrite !elem_of_cons, IH. tauto.
Qed.

Lemma insert_sorted_sorted (s : string) (l : list string) :
  StronglySorted slt l → StronglySorted slt (insert_sorted s l).
Proof.
  induction 1 as [|t l Hs IH Ht]; simpl.
  - repeat constructor.
  - destruct (String.compare s t) eqn:E.
    + by constructor.
    + constructor; [by constructor|]. constructor; [exact E|].
      eapply Forall_impl; [exact Ht|]. intros u Hu. by eapply slt_trans.
    + constructor; [exact IH|].
      apply Forall_forall. intros u Hu.
      apply insert_sorted_elem in Hu as [->|Hu].
      * unfold slt. rewrite String.compare_antisym, E. reflexivity.
      * by eapply Forall_forall in Ht.
Qed.

Lemma unique_names_sorted (names : list string) :
  StronglySorted slt (foldr insert_sorted [] names).
Proof.
  induction names as [|n names IH]; simpl; [constructor|].
  by apply insert_sorted_sorted.
Qed.

Lemma unique_names_elem (x : string) (names : list string) :
  x ∈ foldr insert_sorted [] names ↔ x ∈ names.
Proof.
  induction names as [|n names IH]; simpl; [reflexivity|].
  rewrite insert_sorted_elem, elem_of_cons, IH. reflexivity.
Qed.

Lemma sorted_NoDup (l : list string) : StronglySorted slt l → NoDup l.
Proof.
  induction 1 as [|t l Hs IH Ht]; constructor; [|exact IH].
  intros Hin. eapply Forall_forall in Ht; [|exact Hin].
  exact (slt_irrefl t Ht).
Qed.

Lemma sorted_insert_all (l : list string) :
  StronglySorted slt l → foldr insert_sorted [] l = l.
Proof.
  induction 1 as [|t l Hs IH Ht]; simpl; [reflexivity|].
  rewrite IH. destruct l as [|t' l]; simpl; [reflexivity|].
  apply Forall_cons in Ht as [Ht _]. unfold slt in Ht. rewrite Ht.
  reflexivity.
Qed.

Lemma first_index_lookup (x : string) (l : list string) :
  x ∈ l → l !! first_index x l = Some x.
Proof.
  induction l as [|t l IH]; simpl; intros H; [by apply elem_of_nil in H|].
  destruct (String.eqb_spec t x) as [->|Hne]; [reflexivity|].
  apply elem_of_cons in H as [->|H]; [congruence|]. simpl. auto.
Qed.

Lemma first_index_NoDup (x : string) (l : list string) (i : nat) :
  NoDup l → l !! i = Some x → first_index x l = i.
Proof.
  intros Hnd. revert i. induction Hnd as [|t l Ht Hnd IH]; intros i;
    [by rewrite lookup_nil|].
  simpl. destruct (String.eqb_spec t x) as [->|Hne].
  - destruct i as [|i]; [reflexivity|]. simpl. intros Hl.
    exfalso. apply Ht. apply list_elem_of_lookup. eauto.
  - destruct i as [|i]; simpl; [congruence|]. intros Hl. f_equal. auto.
Qed.

Lemma first_index_self (l : list string) :
  NoDup l → List.map (fun x => first_index x l) l = seq 0 (length l).
Proof.
  intros Hnd. apply list_eq. intros i.
  rewrite map_fmap, list_lookup_fmap.
  destruct (l !! i) as [x|] eqn:E; simpl.
  - rewrite (first_index_NoDup x l i Hnd E).
    symmetry. apply lookup_seq. split; [reflexivity|].
    by eapply lookup_lt_Some.
  - symmetry. apply lookup_seq_ge. by apply lookup_ge_None.
Qed.

(** [np.unique] on names that are already distinct and in order: nothing
    moves. *)
Lemma np_unique_sorted (l : list string) :
  StronglySorted slt l →
  np_unique l = (l, seq 0 (length l), seq 0 (length l)).
Proof.
  intros Hs. unfold np_unique. rewrite (sorted_insert_all l Hs).
  rewrite (first_index_self l (sorted_NoDup l Hs)). reflexivity.
Qed.

(** ** Photometry through the distinct filters *)

Section Dedup.
Context {F : Type} {num : Numeric F} {host : Host F}.

Lemma for_each_length {A B} (f : A → result B) (xs : list A) (l : list B) :
  for_each f xs = Ok l → length l = length xs.
Proof.
  revert l. induction xs as [|x xs IH]; intros l; simpl.
  - by intros [= <-].
  - intros H. apply bind_Ok in H as (y & _ & H).
    apply bind_Ok in H as (ys & Hys & H). injection H as <-.
    simpl. f_equal. auto.
Qed.

Lemma for_each_elem {A B} (f : A → result B) (xs : list A) (l : list B) :
  for_each f xs = Ok l → ∀ z, z ∈ l → ∃ x, x ∈ xs ∧ f x = Ok z.
Proof.
  revert l. induction xs as [|x xs IH]; intros l; simpl.
  - intros [= <-] z Hz. by apply elem_of_nil in Hz.
  - intros H. apply bind_Ok in H as (y & Hy & H).
    apply bind_Ok in H as (ys & Hys & H). injection H as <-.
    intros z Hz. apply elem_of_cons in Hz as [->|Hz].
    + exists x. split; [left|exact Hy].
    + destruct (IH ys Hys z Hz) as (x' & ? & ?). exists x'.
      split; [by right|done].
Qed.



Lemma bcast_elem {A B C} (f : A → B → result C)
    (xs : list A) (ys : list B) (l : list C) :
  bcast f xs ys = Ok l →
  ∀ z, z ∈ l → ∃ x y, x ∈ xs ∧ y ∈ ys ∧ f x y = Ok z.
Proof.
  unfold bcast. intros H z Hz.
  destruct (Nat.eqb (length xs) (length ys)).
  - destruct (for_each_elem _ _ _ H z Hz) as ([x y] & Hxy & Hf).
    exists x, y. apply elem_of_zip_l in Hxy as Hx.
    apply elem_of_zip_r in Hxy as Hy. auto.
  - destruct xs as [|x [|x' xs]].
    + destruct ys as [|y [|y' ys]]; try discriminate.
      destruct (for_each_elem _ _ _ H z Hz) as (x & Hx & _).
      by apply elem_of_nil in Hx.
    + destruct (for_each_elem _ _ _ H z Hz) as (y & Hy & Hf).
      exists x, y. split; [left|]. auto.
    + destruct ys as [|y [|y' ys]]; try discriminate.
      destruct (for_each_elem _ _ _ H z Hz) as (x0 & Hx & Hf).
      exists x0, y. split; [exact Hx|]. split; [left|exact Hf].
Qed.


End Dedup.

(** ** Shapes along the photometry *)

Section Shapes.
Context {F : Type} {num : Numeric F} {host : Host F}.

Lemma bcast1_column (op : F → F → F) (row : list F) (x : F) (r : list F) :
  bcast1 op row [x] = Ok r → length r = length row.
Proof.
  unfold bcast1, bcast. intros H.
  destruct row as [|a [|b row]]; apply for_each_length in H; exact H.
Qed.

Lemma np_binop_scalar_left (op : F → F → F) (k : F) (a r : nd F) (u : nat) :
  np_binop op (Sc k) a = Ok r → last_axis u a → last_axis u r.
Proof.
  destruct a as [x|v|m]; simpl; intros [= <-]; simpl; [done| |].
  - intros <-. apply length_map.
  - intros H. rewrite map_fmap. apply Forall_fmap.
    eapply Forall_impl; [exact H|]. intros row <-. simpl. apply length_map.
Qed.

Lemma same_shape_last_axis (a r : nd F) (u : nat) :
  same_shape r a = true → last_axis u a → last_axis u r.
Proof.
  destruct r as [x|v|m], a as [x'|v'|m']; simpl; try discriminate; try done.
  - intros H <-. by apply Nat.eqb_eq in H.
  - intros H Hm'. apply andb_true_iff in H as [Hlen H].
    apply Nat.eqb_eq in Hlen.
    revert m' Hlen H Hm'. induction m as [|row m IH]; intros [|row' m'];
      simpl; intros Hlen H Hm'; try discriminate; [constructor|].
    apply andb_true_iff in H as [Hr H]. apply Nat.eqb_eq in Hr.
    apply Forall_cons in Hm' as [Hrow' Hm'].
    constructor; [simpl in Hr; congruence|].
    apply (IH m'); [lia|exact H|exact Hm'].
Qed.

Lemma np_inplace_last_axis (op : F → F → F) (a d r : nd F) (u : nat) :
  np_inplace op a d = Ok r → last_axis u a → last_axis u r.
Proof.
  unfold np_inplace. intros H Ha.
  apply bind_Ok in H as (r' & _ & H).
  destruct a as [x|v|m]; [done| |];
    (destruct (same_shape r' _) eqn:E; [|discriminate]);
    injection H as <-; by eapply same_shape_last_axis.
Qed.

Lemma np_binop_column (op : F → F → F) (a col : nd F) (mass : nd F)
    (rows : list (list F)) (u : nat) :
  as_column mass = Ok col →
  np_binop op a col = Ok (M2 rows) →
  last_axis u a →
  Forall (fun r => length r = u) rows.
Proof.
  destruct mass as [x|mv|mm]; simpl; try discriminate.
  intros [= <-]. destruct a as [x|v|m]; simpl; [done| |].
  - intros H <-. apply fmap_Ok in H as (l & H & [= ->]).
    apply Forall_forall. intros r Hr.
    destruct (for_each_elem _ _ _ H r Hr) as (cr & Hcr & Hb).
    rewrite map_fmap in Hcr.
    apply list_elem_of_fmap in Hcr as (x & -> & _).
    by apply bcast1_column in Hb.
  - intros H Hm. apply fmap_Ok in H as (l & H & [= ->]).
    apply Forall_forall. intros r Hr.
    destruct (bcast_elem _ _ _ _ H r Hr) as (row & cr & Hrow & Hcr & Hb).
    rewrite map_fmap in Hcr.
    apply list_elem_of_fmap in Hcr as (x & -> & _).
    apply bcast1_column in Hb. rewrite Hb.
    by eapply Forall_forall in Hm.
Qed.

Lemma getSED_last_axis (wa flux mags : nd F) (U : list (Filter F)) :
  getSED wa flux U = Ok mags → last_axis (length U) mags.
Proof.
  unfold getSED. destruct wa as [x|w|m]; try discriminate.
  destruct flux as [x|f|rows]; try discriminate; intros [= <-]; simpl.
  - apply length_map.
  - rewrite map_fmap. apply Forall_fmap, Forall_forall. intros f _. simpl.
    apply length_map.
Qed.

Lemma np_atleast_1d_last_axis (a : nd F) (u : nat) :
  last_axis u a → last_axis u (np_atleast_1d a).
Proof. by destruct a. Qed.

Lemma project_with_Ok (wa sa p : nd F) (U : list (Filter F))
    (fi : list nat) (o : option (list nat)) :
  project_with wa sa U fi = Ok (p, o) →
  last_axis (length U) p ∧ o = Some fi ∧
  ∀ fi', project_with wa sa U fi' = Ok (p, Some fi').
Proof.
  unfold project_with. intros H.
  apply bind_Ok in H as (flux & Eflux & H).
  apply bind_Ok in H as (mags & Emags & H).
  apply bind_Ok in H as (e & Ee & H).
  apply bind_Ok in H as (p' & Ep & H).
  injection H as <- <-.
  split; [|split; [reflexivity|]].
  - apply np_atleast_1d_last_axis.
    eapply np_binop_scalar_left; [exact Ep|].
    eapply np_binop_scalar_left; [exact Ee|].
    by eapply getSED_last_axis.
  - intros fi'. rewrite Eflux. cbn [mbind result_bind]. rewrite Emags.
    cbn [mbind result_bind]. rewrite Ee. cbn [mbind result_bind].
    rewrite Ep. reflexivity.
Qed.
End Shapes.

(** ** The distinct filters *)

Section Unique.
Context {F : Type} {num : Numeric F} {host : Host F}.

Lemma lookup_named (fs : list (Filter F)) (us : list string) :
  (∀ u, u ∈ us → u ∈ List.map filt_name fs) →
  let idx := List.map (fun u => first_index u (List.map filt_name fs)) us in
  for_each (fun i => match fs !! i with
                     | Some f => Ok f
                     | None => Err (IndexError "index out of bounds")
                     end) idx
    = Ok (omap (fun i => fs !! i) idx) ∧
  List.map filt_name (omap (fun i => fs !! i) idx) = us.
Proof.
  induction us as [|u us IH]; intros Hus; [done|].
  destruct IH as [IH1 IH2]; [intros v Hv; apply Hus; by right|].
  pose proof (first_index_lookup u _ (Hus u (list_elem_of_here _ _))) as Hu.
  cbn [List.map for_each omap list_omap].
  remember (first_index u (List.map filt_name fs)) as i eqn:Ei.
  rewrite map_fmap, list_lookup_fmap in Hu.
  destruct (fs !! i) as [f|] eqn:Ef; [|discriminate].
  injection Hu as Hu.
  cbn [mbind result_bind]. rewrite IH1. cbn [mbind result_bind].
  split; [reflexivity|].
  cbn [List.map]. rewrite IH2, Hu. reflexivity.
Qed.

Lemma unique_filters_names (fs : list (Filter F)) :
  List.map filt_name (unique_filters_of fs)
    = foldr insert_sorted [] (List.map filt_name fs).
Proof.
  unfold unique_filters_of, np_unique. cbn [fst snd].
  apply lookup_named. intros u. apply unique_names_elem.
Qed.

Lemma omap_lookup_seq_from {A} (pre l : list A) :
  omap (fun i => (pre ++ l)%list !! i) (seq (length pre) (length l)) = l.
Proof.
  revert pre. induction l as [|x l IH]; intros pre; [reflexivity|].
  cbn [length seq omap list_omap].
  rewrite list_lookup_middle by reflexivity.
  f_equal. specialize (IH (pre ++ [x])%list).
  rewrite length_app, Nat.add_1_r, <- app_assoc in IH. exact IH.
Qed.

Lemma omap_lookup_seq {A} (l : list A) :
  omap (fun i => l !! i) (seq 0 (length l)) = l.
Proof. exact (omap_lookup_seq_from [] l). Qed.

(** The distinct filters, deduplicated again, are themselves, in place. *)
Lemma unique_filters_idem (fs : list (Filter F)) :
  let U := unique_filters_of fs in
  np_unique (List.map filt_name U)
    = (List.map filt_name U, seq 0 (length U), seq 0 (length U)) ∧
  unique_filters_of U = U ∧
  inverse_index U = seq 0 (length U).
Proof.
  intros U.
  assert (Hu : np_unique (List.map filt_name U)
               = (List.map filt_name U, seq 0 (length U), seq 0 (length U))).
  { rewrite <- (length_map filt_name U). apply np_unique_sorted.
    subst U. rewrite unique_filters_names. apply unique_names_sorted. }
  split; [exact Hu|]. unfold unique_filters_of, inverse_index.
  rewrite Hu. cbn [fst snd]. split; [apply omap_lookup_seq|reflexivity].
Qed.

Lemma project_Some (wa sa : nd F) (fs : list (Filter F)) :
  project wa sa (Some fs)
    = project_with wa sa (unique_filters_of fs) (inverse_index fs).
Proof.
  unfold project, project_with, unique_filters_of, inverse_index, np_unique.
  cbn [fst snd].
  destruct (lookup_named fs (foldr insert_sorted [] (List.map filt_name fs)))
    as [H _]; [intros u; apply unique_names_elem|].
  cbn zeta in H. rewrite H. reflexivity.
Qed.

Lemma project_unique (wa sa : nd F) (fs : list (Filter F)) :
  project wa sa (Some (unique_filters_of fs))
    = project_with wa sa (unique_filters_of fs)
        (seq 0 (length (unique_filters_of fs))).
Proof.
  rewrite project_Some.
  destruct (unique_filters_idem fs) as (_ & -> & ->). reflexivity.
Qed.


Lemma item2_Ok (rows : list (list F)) (c : Z) (j : nat) (x : F) :
  item2 rows c j = Ok x →
  ∃ r row, wrap_index (length rows) c = Ok r ∧ rows !! r = Some row ∧
           row !! j = Some x.
Proof.
  unfold item2. intros H. apply bind_Ok in H as (r & Hr & H).
  destruct (rows !! r) as [row|] eqn:Er; [|discriminate].
  destruct (row !! j) as [y|] eqn:Ej; [|discriminate].
  injection H as <-. eauto.
Qed.

End Unique.

(** ** The round trip *)

Section RoundTrip.
Context {F : Type} {num : Numeric F} {host : Host F}.

Lemma get_spectrum_rows (self : SpatialSource F) (outwave : option (nd F))
    (fs : list (Filter F)) (component : selector)
    (params : gmap string (pval F)) (sa phot mfrac : nd F)
    (self' : SpatialSource F) :
  get_spectrum self outwave (Some fs) component params
    = Ok (sa, phot, mfrac, self') →
  ∃ rows : list (list F),
    fancy_index (M2 rows) component (inverse_index fs) = Ok phot ∧
    Forall (fun r => length r = length (unique_filters_of fs)) rows ∧
    ∀ c, get_spectrum self outwave (Some (unique_filters_of fs)) (CInt c)
           params
         = (q ← fancy_index (M2 rows) (CInt c)
                  (seq 0 (length (unique_filters_of fs)));
            Ok (sa, q, mfrac, self')).
Proof.
  intros H. unfold get_spectrum in H.
  apply bind_Ok in H as ([[[wave spectrum] mfrac0] self0] & E1 & H).
  cbn beta iota zeta in H.
  apply bind_Ok in H as (a & E2 & H).
  apply bind_Ok in H as (b & E3 & H).
  apply bind_Ok in H as (wa & E4 & H).
  apply bind_Ok in H as (sa0 & E5 & H).
  apply bind_Ok in H as ([p0 fi] & E6 & H).
  cbn beta iota zeta in H.
  apply bind_Ok in H as (near & E7 & H).
  apply bind_Ok in H as (dfactor & E8 & H).
  apply bind_Ok in H as (sa1 & E9 & H).
  apply bind_Ok in H as (p1 & E10 & H).
  apply bind_Ok in H as (mass & E11 & H).
  apply bind_Ok in H as (col & E12 & H).
  apply bind_Ok in H as (sa2 & E13 & H).
  apply bind_Ok in H as (pm & E14 & H).
  apply bind_Ok in H as (fi' & E15 & H).
  apply bind_Ok in H as (phot' & E16 & H).
  injection H as <- <- <- <-.
  rewrite project_Some in E6.
  apply project_with_Ok in E6 as (Hp0 & -> & Hall).
  injection E15 as <-.
  destruct pm as [x|v|rows]; try discriminate.
  exists rows. split; [exact E16|]. split.
  { eapply np_binop_column; [exact E12|exact E14|].
    eapply np_inplace_last_axis; [exact E10|exact Hp0]. }
  intros c. unfold get_spectrum.
  step E1. step E2. step E3. step E4. step E5.
  rewrite project_unique. step (Hall (seq 0 (length (unique_filters_of fs)))).
  step E7. step E8. step E9. step E10. step E11. step E12. step E13.
  step E14. reflexivity.
Qed.


End RoundTrip.

Section ReExpand.
Context {F : Type} {num : Numeric F} {host : Host F}.

End ReExpand.


(** What the demo run returns as photometry, and the distinct filters and
    the inverse index behind it. *)
Example photometry_demo :
  photometry_of
    (get_spectrum (host := demo) demo_source None (Some demo_filters)
       (CArr [0; 1; -1]%Z) demo_params)
    = Ok (V1 [40000000000.0000000000000000;
              1000000000000.0000000000000000;
              500000000000.0000000000000000]%Q) ∧
  List.map filt_name (unique_filters_of demo_filters)
    = ["f435w_goodsn"; "f606w_goodsn"] ∧
  inverse_index demo_filters = [1; 0; 1].
Proof. repeat split; vm_compute; reflexivity. Qed.

(** Two components of the spectrum [[1; 2; 3]] and the fraction one half,
    with the masses of [run_params]. *)
Lemma composite_of_identical_components_witness :
  mass_array (update (Host := twin) demo_params (sps_params demo_source))
    = Ok [4e10; 1e10]%Q ∧
  ssp_component (Host := twin)
    (update (Host := twin) demo_params (sps_params demo_source)) 0
    = Ok (demo_wave, [1; 2; 3]%Q, 0.5%Q) ∧
  ssp_component (Host := twin)
    (update (Host := twin) demo_params (sps_params demo_source)) 1
    = Ok (demo_wave, [1; 2; 3]%Q, 0.5%Q) ∧
  (0 < 4e10)%Q ∧ (0 < 1e10)%Q ∧
  (mass_units_is_mstar
     (update (Host := twin) demo_params (sps_params demo_source)) = true →
   ¬ (0.5 == 0)%Q) ∧
  ∃ (composite : list Q) (fsum : Q) (stacked : nd Q),
    get_galaxy_spectrum (host := twin) demo_source demo_params =
      Ok (demo_wave, stacked, V1 [0.5; 0.5; fsum]%Q,
          {| sps_params :=
               update (Host := twin) demo_params (sps_params demo_source) |}) ∧
    np_squeeze_rows [[1; 2; 3]%Q; [1; 2; 3]%Q; composite] = Ok stacked ∧
    ((2 ≤ length [1; 2; 3]%Q)%nat →
     stacked = M2 [[1; 2; 3]%Q; [1; 2; 3]%Q; composite]) ∧
    Forall2 Qeq composite [1; 2; 3]%Q ∧
    (fsum == 0.5)%Q.
Proof.
  assert (Hf : mass_units_is_mstar
                 (update (Host := twin) demo_params (sps_params demo_source))
               = true → ¬ (0.5 == 0)%Q).
  { intros _ H. vm_compute in H. discriminate H. }
  split; [reflexivity|]. split; [reflexivity|]. split; [reflexivity|].
  split; [reflexivity|]. split; [reflexivity|]. split; [exact Hf|].
  apply (composite_of_identical_components twin demo_source demo_params
           4e10%Q 1e10%Q 0.5%Q demo_wave demo_wave [1; 2; 3]%Q);
    [reflexivity|reflexivity|reflexivity|reflexivity|reflexivity|exact Hf].
Defined.

(** The clamp on a spectrum of two rows with positive values, and on one
    without. *)
Example flux_clamp_demo :
  flux_clamp (M2 [[3; -1; 0]; [0.5; 2; -4]]%Q)
    = M2 [[3; 50 # 200; 50 # 200]; [0.5; 2; 50 # 200]]%Q ∧
  flux_clamp (M2 [[-3; -1; 0]; [0; -2; -4]]%Q)
    = M2 [[-3; -1; 0]; [0; -2; -4]]%Q.
Proof. split; vm_compute; reflexivity. Qed.


(** * Further properties *)

(** ** load_model: errors and repeated calls *)

Lemma py_index_missing (x : string) (l : list string) :
  x ∉ l → py_index x l = Err (ValueError "is not in list").
Proof.
  induction l as [|y l IH]; intros Hx; simpl; [reflexivity|].
  apply not_elem_of_cons in Hx as [Hne Hx].
  destruct (String.eqb_spec y x) as [->|_]; [done|].
  by rewrite (IH Hx).
Qed.

(** [index] finds the first entry of the name. *)
Lemma py_index_first (x : string) (l : list string) (i : nat) :
  py_index x l = Ok i → ∀ j, j < i → l !! j ≠ Some x.
Proof.
  revert i. induction l as [|y l IH]; intros i; simpl; [discriminate|].
  destruct (String.eqb_spec y x) as [->|Hne].
  - intros [= <-] j Hj. lia.
  - intros H. apply fmap_Ok in H as (k & Hk & ->).
    intros [|j] Hj; simpl; [congruence|].
    apply (IH k Hk). lia.
Qed.

Lemma alter_set_init_twice (z1 z2 : pyval) (i : nat)
    (cat : list ParameterSpec) :
  alter (set_init z2) i (alter (set_init z1) i cat) = alter (set_init z2) i cat.
Proof.
  revert i. induction cat as [|p cat IH]; intros [|i]; simpl; try reflexivity.
  f_equal. apply IH.
Qed.

(** X1: on a catalog without an entry named "zred", [load_model] raises
    the [ValueError] of [list.index], whatever the redshift and the host:
    no model is built and the catalog is not written to. *)
Theorem load_model_missing_zred {F : Type} {num : Numeric F} {host : Host F}
    (zred : pyval) (cat : list ParameterSpec) :
  "zred" ∉ List.map name cat →
  load_model zred cat = Err (ValueError "is not in list").
Proof.
  intros Hn. unfold load_model. cbn zeta.
  rewrite (py_index_missing _ _ Hn). reflexivity.
Qed.

(** The catalog of the module without its first entry, which is the one
    named "zred". *)
Lemma load_model_missing_zred_witness :
  ("zred" ∉ List.map name (tail model_params)) ∧
  load_model (host := demo) (PyFloat 0.5) (tail model_params)
    = Err (ValueError "is not in list").
Proof.
  assert (Hn : "zred" ∉ List.map name (tail model_params)).
  { apply (bool_decide_eq_true_1 _). vm_compute. reflexivity. }
  split; [exact Hn|].
  exact (load_model_missing_zred (host := demo) (PyFloat 0.5)
           (tail model_params) Hn).
Defined.

(** X2: the last call wins.  After a call of [load_model] that returned, a
    second call on the catalog it left returns exactly what the second call
    would have returned on the catalog as it was before the first: nothing
    of the first redshift is left, in the catalog or in the model. *)
Theorem load_model_last_call_wins {F : Type} {num : Numeric F}
    {host : Host F} (z1 z2 : pyval) (cat c1 : list ParameterSpec)
    (m1 : SpatialSedModel F) :
  load_model z1 cat = Ok (m1, c1) →
  load_model z2 c1 = load_model z2 cat.
Proof.
  intros H. unfold load_model in H. cbn zeta in H.
  apply bind_Ok in H as (zind & Hz & H). injection H as _ <-.
  unfold load_model. cbn zeta.
  rewrite load_model_names, Hz. cbn [mbind result_bind].
  rewrite alter_set_init_twice. reflexivity.
Qed.

Lemma load_model_last_call_wins_witness :
  ∃ m1 c1,
    load_model (host := demo) (PyFloat 0.5) model_params = Ok (m1, c1) ∧
    load_model (host := demo) (PyFloat 2) c1
      = load_model (host := demo) (PyFloat 2) model_params.
Proof.
  destruct (load_model (host := demo) (PyFloat 0.5) model_params)
    as [[m1 c1]|e] eqn:E.
  - exists m1, c1. split; [reflexivity|].
    exact (load_model_last_call_wins _ _ _ _ _ E).
  - vm_compute in E. discriminate E.
Defined.

(** ** load_model and dictionaries held twice *)

(** On pairwise distinct dictionaries, the write through one position is
    the rewrite of that position. *)
Lemma write_init_alter (zred : pyval) (refs : list nat)
    (dicts : nat → ParameterSpec) (zind r0 : nat) :
  NoDup refs → refs !! zind = Some r0 →
  List.map (write_init r0 zred dicts) refs
  = alter (set_init zred) zind (List.map dicts refs).
Proof.
  intros Hnd Hz. apply list_eq. intros j.
  rewrite map_fmap, list_lookup_fmap.
  destruct (decide (j = zind)) as [->|Hj].
  - rewrite list_lookup_alter_eq, map_fmap, list_lookup_fmap, Hz. cbn.
    unfold write_init. by rewrite Nat.eqb_refl.
  - rewrite list_lookup_alter_ne by congruence.
    rewrite map_fmap, list_lookup_fmap.
    destruct (refs !! j) as [r|] eqn:Hr; [|reflexivity]. cbn.
    unfold write_init. destruct (Nat.eqb_spec r r0) as [->|Hne];
      [|reflexivity].
    exfalso. apply Hj. by eapply NoDup_lookup.
Qed.

(** X3: [load_model] writes into the dictionary that stands at the first
    position named "zred".  Every position of the catalog that holds this
    same dictionary shows the new initial value, and every position that
    holds another dictionary is as it was; no position before the first has
    the name.  On a catalog of pairwise distinct dictionaries, as the
    module's is, this is [load_model] over the list of values. *)
Theorem load_model_shared_dictionary {F : Type} {num : Numeric F}
    {host : Host F} (zred : pyval) (c c' : Catalog)
    (m : SpatialSedModel F) :
  load_model_shared zred c = Ok (m, c') →
  ∃ zind r0,
    py_index "zred" (List.map name (cat_view c)) = Ok zind ∧
    cat_refs c !! zind = Some r0 ∧
    name (cat_dicts c r0) = "zred" ∧
    (∀ j p, j < zind → cat_view c !! j = Some p → name p ≠ "zred") ∧
    cat_refs c' = cat_refs c ∧
    (∀ j r, cat_refs c !! j = Some r →
       cat_view c' !! j
       = Some (if bool_decide (r = r0) then set_init zred (cat_dicts c r)
               else cat_dicts c r)) ∧
    mod_config m = cat_view c' ∧
    (NoDup (cat_refs c) → load_model zred (cat_view c) = Ok (m, cat_view c')).
Proof.
  intros H. unfold load_model_shared in H. cbn zeta in H.
  apply bind_Ok in H as (zind & Hz & H).
  apply bind_Ok in H as (r0 & Hr0 & H).
  destruct (cat_refs c !! zind) as [r|] eqn:Er; [|discriminate].
  injection Hr0 as ->. injection H as <- <-.
  exists zind, r0. split; [exact Hz|]. split; [exact Er|].
  pose proof (py_index_lookup _ _ _ Hz) as Hl.
  unfold cat_view in Hl. rewrite !map_fmap, !list_lookup_fmap, Er in Hl.
  injection Hl as Hname.
  split; [exact Hname|]. split; [|split; [reflexivity|split; [|split]]].
  - intros j p Hj Hp Hn.
    apply (py_index_first _ _ _ Hz j Hj).
    rewrite map_fmap, list_lookup_fmap, Hp. cbn. by rewrite Hn.
  - intros j r Hr. unfold cat_view. cbn [cat_refs cat_dicts].
    rewrite map_fmap, list_lookup_fmap, Hr. cbn. unfold write_init.
    destruct (Nat.eqb_spec r r0) as [->|Hne].
    + by rewrite bool_decide_eq_true_2.
    + by rewrite bool_decide_eq_false_2.
  - reflexivity.
  - intros Hnd. unfold load_model. cbn zeta. rewrite Hz.
    cbn [mbind result_bind]. unfold cat_view. cbn [cat_refs cat_dicts].
    rewrite (write_init_alter zred _ _ zind r0 Hnd Er). reflexivity.
Qed.

(** The catalog [model_params + model_params]. *)
Lemma load_model_shared_dictionary_witness :
  ∃ m c',
    load_model_shared (host := demo) (PyFloat 3) demo_doubled = Ok (m, c') ∧
    ∃ zind r0,
      py_index "zred" (List.map name (cat_view demo_doubled)) = Ok zind ∧
      cat_refs demo_doubled !! zind = Some r0 ∧
      name (cat_dicts demo_doubled r0) = "zred" ∧
      (∀ j p, j < zind → cat_view demo_doubled !! j = Some p →
              name p ≠ "zred") ∧
      cat_refs c' = cat_refs demo_doubled ∧
      (∀ j r, cat_refs demo_doubled !! j = Some r →
         cat_view c' !! j
         = Some (if bool_decide (r = r0)
                 then set_init (PyFloat 3) (cat_dicts demo_doubled r)
                 else cat_dicts demo_doubled r)) ∧
      mod_config m = cat_view c' ∧
      (NoDup (cat_refs demo_doubled) →
       load_model (host := demo) (PyFloat 3) (cat_view demo_doubled)
       = Ok (m, cat_view c')).
Proof.
  destruct (load_model_shared (host := demo) (PyFloat 3) demo_doubled)
    as [[m c']|e] eqn:E.
  - exists m, c'. split; [reflexivity|].
    exact (load_model_shared_dictionary _ _ _ _ E).
  - vm_compute in E. discriminate E.
Defined.

(** On [model_params + model_params] the positions 0 and 18 hold one
    dictionary and both show the new value; over the list of values only
    position 0 would. *)
Example load_model_shared_demo :
  (fun r => (init <$> cat_view (snd r) !! 0, init <$> cat_view (snd r) !! 18))
    <$> load_model_shared (host := demo) (PyFloat 3) demo_doubled
  = Ok (Some (PyFloat 3), Some (PyFloat 3)) ∧
  (fun r => (init <$> snd r !! 0, init <$> snd r !! 18))
    <$> load_model (host := demo) (PyFloat 3) (cat_view demo_doubled)
  = Ok (Some (PyFloat 3), Some (PyFloat 0.1)).
Proof. split; vm_compute; reflexivity. Qed.

(** ** load_obs: the directory, the filters and the catalog *)

Section LoadObsMore.
Context {F : Type} {num : Numeric F} {host : Host F}.

(** What a returning call has read and requested on its way. *)
Lemma load_obs_inputs (snr : nd F) (add_noise : bool)
    (kwargs : gmap string pyval) (cat cat' : list ParameterSpec)
    (obs : Obs F) :
  load_obs snr add_noise kwargs cat = Ok (obs, cat') →
  ∃ (apps : string) (fname_all : list string) (fs : list (Filter F))
    (model : SpatialSedModel F),
    let goodsn :=
      List.map (split_head ".") (List.filter (contains "goodsn") fname_all) in
    let ground :=
      List.filter
        (fun s => negb (bool_decide (split_head "_" s ∈ fname_hst))) goodsn in
    let hst := List.map (fun f => f ++ "_goodsn") fname_hst in
    let tags := (repeat 0%Z 7 ++ repeat 1%Z 7
                   ++ repeat (-1)%Z (length goodsn - 7))%list in
    getenv "APPS" = Some apps ∧
    listdir (apps ++ "/spatialsed/filters/") = Ok fname_all ∧
    (7 ≤ length goodsn)%nat ∧
    load_filters ((hst ++ hst) ++ ground)%list
      (apps ++ "/spatialsed/filters/") = Ok fs ∧
    load_model_kw kwargs cat = Ok (model, cat') ∧
    filters obs = Some (Some fs) ∧
    component obs = Some (CArr tags) ∧
    wavelength obs = Some None ∧
    ∃ spec phot extras model' sps',
      mean_model sed
        {| mod_config := mod_config model;
           mod_params := mock_overrides (mod_params model) kwargs
                           ∪ mod_params model;
           _spec := _spec model |}
        (theta {| mod_config := mod_config model;
                  mod_params := mock_overrides (mod_params model) kwargs
                                  ∪ mod_params model;
                  _spec := _spec model |})
        {| filters := Some (Some fs); component := Some (CArr tags);
           wavelength := Some None;
           normalization_guess := None; lnwavegrid := None;
           maggies := None; maggies_unc := None; mock_snr := None;
           phot_mask := None; true_spectrum := None; true_maggies := None;
           mock_params := None |}
        (load_sps kwargs)
        = Ok (spec, phot, extras, model', sps') ∧
      true_maggies obs = Some phot ∧
      mock_params obs = Some (mod_params model') ∧
      ∃ n, py_len phot = Ok n ∧ phot_mask obs = Some (repeat true n).
Proof.
  intros H. unfold load_obs in H.
  destruct (getenv "APPS") as [apps|] eqn:Eapps; [|discriminate].
  cbn [mbind result_bind] in H.
  apply bind_Ok in H as (fname_all & Edir & H).
  cbn zeta in H.
  apply bind_Ok in H as (comp & Ecomp & H).
  apply bind_Ok in H as (fs & Efs & H).
  apply bind_Ok in H as ([model cat1] & Emod & H).
  cbn beta iota zeta in H.
  apply bind_Ok in H as ([[[[spec phot] extras] model'] sps'] & Emean & H).
  cbn beta iota zeta in H.
  apply bind_Ok in H as (unc & Hunc & H).
  apply bind_Ok in H as (mag & Hmag & H).
  apply bind_Ok in H as (n & Hn & H).
  injection H as <- <-.
  exists apps, fname_all, fs, model. cbn zeta.
  remember (List.map (split_head ".")
              (List.filter (contains "goodsn") fname_all)) as goodsn eqn:Eg.
  destruct (Z.of_nat (length goodsn) - Z.of_nat (length fname_hst) <? 0)%Z
    eqn:Eneg; [discriminate|].
  apply Z.ltb_ge in Eneg. change (length fname_hst) with 7 in *.
  injection Ecomp as <-.
  replace (Z.to_nat (Z.of_nat (length goodsn) - Z.of_nat 7))
    with (length goodsn - 7) in * by lia.
  split; [reflexivity|]. split; [exact Edir|]. split; [lia|].
  split; [exact Efs|]. split; [exact Emod|].
  split; [reflexivity|]. split; [reflexivity|]. split; [reflexivity|].
  exists spec, phot, extras, model', sps'.
  split; [exact Emean|]. split; [reflexivity|]. split; [reflexivity|].
  exists n. split; [exact Hn|reflexivity].
Qed.

End LoadObsMore.

Lemma filter_negb_length {A} (p : A → bool) (l : list A) :
  length (List.filter p l) + length (List.filter (fun x => negb (p x)) l)
    = length l.
Proof.
  induction l as [|x l IH]; [reflexivity|]. simpl.
  destruct (p x); simpl; lia.
Qed.

Lemma bcast_length {A B C} (f : A → B → result C) (xs : list A)
    (ys : list B) (l : list C) :
  bcast f xs ys = Ok l →
  (length xs = length ys ∧ length l = length ys) ∨
  (length xs = 1 ∧ length l = length ys) ∨
  (length ys = 1 ∧ length l = length xs).
Proof.
  unfold bcast. destruct (Nat.eqb_spec (length xs) (length ys)) as [E|E].
  - intros H. apply for_each_length in H. left. split; [exact E|].
    rewrite H, length_zip. lia.
  - destruct xs as [|x [|x' xs]].
    + destruct ys as [|y [|y' ys]]; try discriminate.
      intros H. apply for_each_length in H. right. right. by rewrite H.
    + intros H. apply for_each_length in H. right. left. by rewrite H.
    + destruct ys as [|y [|y' ys]]; try discriminate.
      intros H. apply for_each_length in H. right. right. by rewrite H.
Qed.

Section SedMore.
Context {F : Type} {num : Numeric F} {host : Host F}.

(** A returning call of [sed] has read ['wavelength'] and ['filters'] from
    [obs] and has the photometry and the extras of [get_spectrum]. *)
Lemma sed_calls_get_spectrum (self self' : SpatialSedModel F) (th : list F)
    (obs : Obs F) (sps sps' : SpatialSource F) (spec phot extras : nd F) :
  sed self th obs sps = Ok (spec, phot, extras, self', sps') →
  ∃ ow fs params raw,
    wavelength obs = Some ow ∧ filters obs = Some fs ∧
    get_spectrum sps ow fs (default (CInt (-1)) (component obs)) params
      = Ok (raw, phot, extras, sps').
Proof.
  intros H. unfold sed in H.
  apply bind_Ok in H as (ow & Eow & H).
  apply bind_Ok in H as (fs & Efs & H).
  apply bind_Ok in H as (params & _ & H).
  apply bind_Ok in H as ([[[raw phot0] extras0] sps0] & Eg & H).
  cbn beta iota zeta in H.
  apply bind_Ok in H as (scaled & _ & H).
  apply bind_Ok in H as (spec0 & _ & H).
  injection H as _ <- <- _ <-.
  exists ow, fs, params, raw.
  destruct (wavelength obs) as [w|]; [|discriminate]. injection Eow as ->.
  destruct (filters obs) as [f|]; [|discriminate]. injection Efs as ->.
  auto.
Qed.

End SedMore.

(** X4: a call of [load_obs] that returns has written to the module's
    catalog: the first entry named "zred" has the keyword [zred] as its
    initial value, or 0.0 where the keywords have none, whatever it was
    before; the catalog is otherwise as it was. *)
Theorem load_obs_rewrites_catalog {F : Type} {num : Numeric F}
    {host : Host F} (snr : nd F) (add_noise : bool)
    (kwargs : gmap string pyval) (cat cat' : list ParameterSpec)
    (obs : Obs F) :
  load_obs snr add_noise kwargs cat = Ok (obs, cat') →
  ∃ zind p,
    py_index "zred" (List.map name cat) = Ok zind ∧
    cat !! zind = Some p ∧
    cat' = <[zind := set_init (default (PyFloat 0.0) (kwargs !! "zred")) p]>
             cat.
Proof.
  intros H. apply load_obs_inputs in H
    as (apps & fname_all & fs & model & H). cbn zeta in H.
  destruct H as (_ & _ & _ & _ & Hm & _).
  unfold load_model_kw, load_model in Hm. cbn zeta in Hm.
  apply bind_Ok in Hm as (zind & Hz & Hm). injection Hm as _ <-.
  pose proof (py_index_lookup _ _ _ Hz) as Hl.
  rewrite map_fmap, list_lookup_fmap in Hl.
  destruct (cat !! zind) as [p|] eqn:Hp; [|discriminate].
  exists zind, p. split; [exact Hz|]. split; [exact Hp|].
  clear Hl Hz. revert zind Hp.
  induction cat as [|q cat IH]; intros [|i] Hp; try discriminate.
  - injection Hp as ->. reflexivity.
  - simpl in Hp. cbn [alter list_alter]. rewrite (IH i Hp). reflexivity.
Qed.

(** The demo run: the keyword [zred] of [run_params] is 1. *)
Lemma load_obs_rewrites_catalog_witness :
  ∃ obs cat',
    load_obs (host := demo) (Sc 20%Q) false run_kwargs model_params
      = Ok (obs, cat') ∧
    ∃ zind p,
      py_index "zred" (List.map name model_params) = Ok zind ∧
      model_params !! zind = Some p ∧
      cat' = <[zind := set_init (default (PyFloat 0.0) (run_kwargs !! "zred"))
                         p]> model_params.
Proof.
  destruct (load_obs (host := demo) (Sc 20%Q) false run_kwargs model_params)
    as [[obs cat']|e] eqn:E.
  - exists obs, cat'. split; [reflexivity|].
    exact (load_obs_rewrites_catalog _ _ _ _ _ _ E).
  - vm_compute in E. discriminate E.
Defined.

(** X5: without the environment variable [APPS], [load_obs] raises the
    [TypeError] of [None + str] at its first statement, before anything is
    read or written. *)
Theorem load_obs_needs_APPS {F : Type} {num : Numeric F} {host : Host F}
    (snr : nd F) (add_noise : bool) (kwargs : gmap string pyval)
    (cat : list ParameterSpec) :
  getenv "APPS" = None →
  load_obs snr add_noise kwargs cat
    = Err (TypeError "unsupported operand type(s) for +").
Proof. intros H. unfold load_obs. rewrite H. reflexivity. Qed.

Lemma load_obs_needs_APPS_witness :
  getenv (Host := demo_unset) "APPS" = None ∧
  load_obs (host := demo_unset) (Sc 20%Q) false run_kwargs model_params
    = Err (TypeError "unsupported operand type(s) for +").
Proof.
  split; [reflexivity|].
  apply (load_obs_needs_APPS (host := demo_unset)). reflexivity.
Defined.

(** X6: where the filter directory has fewer than seven names with
    "goodsn" in them, [load_obs] raises the [ValueError] of a repetition
    with a negative count, before any filter is loaded. *)
Theorem load_obs_too_few_filters {F : Type} {num : Numeric F}
    {host : Host F} (snr : nd F) (add_noise : bool)
    (kwargs : gmap string pyval) (cat : list ParameterSpec)
    (apps : string) (fname_all : list string) :
  getenv "APPS" = Some apps →
  listdir (apps ++ "/spatialsed/filters/") = Ok fname_all →
  (length (List.filter (contains "goodsn") fname_all) < 7)%nat →
  load_obs snr add_noise kwargs cat
    = Err (ValueError "negative dimensions are not allowed").
Proof.
  intros Ha Hd Hlen. unfold load_obs. rewrite Ha.
  cbn [mbind result_bind]. rewrite Hd. cbn [mbind result_bind]. cbn zeta.
  rewrite length_map. change (length fname_hst) with 7%nat.
  destruct (Z.ltb_spec
              (Z.of_nat (length (List.filter (contains "goodsn") fname_all))
               - Z.of_nat 7) 0) as [_|Hge]; [reflexivity|lia].
Qed.

Lemma load_obs_too_few_filters_witness :
  getenv (Host := demo_sparse) "APPS" = Some "/opt" ∧
  listdir (Host := demo_sparse) ("/opt" ++ "/spatialsed/filters/")
    = Ok ["f435w_goodsn.par"; "u_goodsn.par"] ∧
  (length (List.filter (contains "goodsn")
             ["f435w_goodsn.par"; "u_goodsn.par"]) < 7)%nat ∧
  load_obs (host := demo_sparse) (Sc 20%Q) false run_kwargs model_params
    = Err (ValueError "negative dimensions are not allowed").
Proof.
  assert (Hlen : (length (List.filter (contains "goodsn")
                            ["f435w_goodsn.par"; "u_goodsn.par"]) < 7)%nat).
  { vm_compute. lia. }
  split; [reflexivity|]. split; [reflexivity|]. split; [exact Hlen|].
  apply (load_obs_too_few_filters (host := demo_sparse) _ _ _ _ "/opt"
           ["f435w_goodsn.par"; "u_goodsn.par"]);
    [reflexivity|reflexivity|exact Hlen].
Defined.

(** X7: the tags and the filters of a returning call.  With [g] names of
    the directory that have "goodsn" in them, the call stores [7 + g] tags
    under ['component'] (seven 0, seven 1, and -1 for the rest) and has
    asked the filter library for [14] HST names and the names that do not
    start with an HST band; the two numbers agree exactly when seven of the
    [g] names start with an HST band. *)
Theorem load_obs_tags_and_names {F : Type} {num : Numeric F}
    {host : Host F} (snr : nd F) (add_noise : bool)
    (kwargs : gmap string pyval) (cat cat' : list ParameterSpec)
    (obs : Obs F) :
  load_obs snr add_noise kwargs cat = Ok (obs, cat') →
  ∃ (apps : string) (fname_all : list string) (fs : list (Filter F))
    (tags : list Z),
    let goodsn :=
      List.map (split_head ".") (List.filter (contains "goodsn") fname_all) in
    let is_hst := fun s => bool_decide (split_head "_" s ∈ fname_hst) in
    let ground := List.filter (fun s => negb (is_hst s)) goodsn in
    let hst := List.map (fun f => f ++ "_goodsn") fname_hst in
    let names := ((hst ++ hst) ++ ground)%list in
    listdir (apps ++ "/spatialsed/filters/") = Ok fname_all ∧
    load_filters names (apps ++ "/spatialsed/filters/") = Ok fs ∧
    filters obs = Some (Some fs) ∧
    component obs = Some (CArr tags) ∧
    tags = (repeat 0%Z 7 ++ repeat 1%Z 7
              ++ repeat (-1)%Z (length goodsn - 7))%list ∧
    length tags = (7 + length goodsn)%nat ∧
    length names = (14 + length ground)%nat ∧
    (length tags = length names ↔ length (List.filter is_hst goodsn) = 7%nat).
Proof.
  intros H. apply load_obs_inputs in H
    as (apps & fname_all & fs & model & H). cbn zeta in H.
  destruct H as (_ & Hd & Hg & Hfs & _ & Hf & Hc & _).
  exists apps, fname_all, fs. eexists. cbn zeta.
  split; [exact Hd|]. split; [exact Hfs|]. split; [exact Hf|].
  split; [exact Hc|]. split; [reflexivity|].
  remember (List.map (split_head ".")
              (List.filter (contains "goodsn") fname_all)) as goodsn eqn:Eg.
  pose proof (filter_negb_length
                (fun s => bool_decide (split_head "_" s ∈ fname_hst)) goodsn)
    as Hsplit.
  rewrite !length_app, !repeat_length, !length_map.
  change (length fname_hst) with 7%nat.
  split; [lia|]. split; [lia|]. lia.
Qed.

Lemma load_obs_tags_and_names_witness :
  ∃ obs cat',
    load_obs (host := demo) (Sc 20%Q) false run_kwargs model_params
      = Ok (obs, cat') ∧
    ∃ (apps : string) (fname_all : list string) (fs : list (Filter Q))
      (tags : list Z),
      let goodsn :=
        List.map (split_head ".")
                 (List.filter (contains "goodsn") fname_all) in
      let is_hst := fun s => bool_decide (split_head "_" s ∈ fname_hst) in
      let ground := List.filter (fun s => negb (is_hst s)) goodsn in
      let hst := List.map (fun f => f ++ "_goodsn") fname_hst in
      let names := ((hst ++ hst) ++ ground)%list in
      listdir (Host := demo) (apps ++ "/spatialsed/filters/") = Ok fname_all ∧
      load_filters (Host := demo) names (apps ++ "/spatialsed/filters/")
        = Ok fs ∧
      filters obs = Some (Some fs) ∧
      component obs = Some (CArr tags) ∧
      tags = (repeat 0%Z 7 ++ repeat 1%Z 7
                ++ repeat (-1)%Z (length goodsn - 7))%list ∧
      length tags = (7 + length goodsn)%nat ∧
      length names = (14 + length ground)%nat ∧
      (length tags = length names
       ↔ length (List.filter is_hst goodsn) = 7%nat).
Proof.
  destruct (load_obs (host := demo) (Sc 20%Q) false run_kwargs model_params)
    as [[obs cat']|e] eqn:E.
  - exists obs, cat'. split; [reflexivity|].
    exact (load_obs_tags_and_names _ _ _ _ _ _ E).
  - vm_compute in E. discriminate E.
Defined.

(** X8: over a filter library that gives one filter per name and a
    framework whose [mean_model] passes on the photometry of [sed], a call
    of [load_obs] returns only where seven of the directory's "goodsn"
    names start with an HST band; the photometry it stores has then one
    value per requested filter, [14] for the HST bands taken twice and one
    for every other name, and the mask has as many entries, all true. *)
Theorem load_obs_one_file_per_band {F : Type} {num : Numeric F}
    {host : Host F} (snr : nd F) (add_noise : bool)
    (kwargs : gmap string pyval) (cat cat' : list ParameterSpec)
    (obs : Obs F) :
  (∀ names dir fs, load_filters names dir = Ok fs →
                   length fs = length names) →
  (∀ m th o s spec phot x m' s',
     mean_model sed m th o s = Ok (spec, phot, x, m', s') →
     ∃ spec0 x0 m0 s0, sed m th o s = Ok (spec0, phot, x0, m0, s0)) →
  load_obs snr add_noise kwargs cat = Ok (obs, cat') →
  ∃ (apps : string) (fname_all : list string) (v : list F),
    let goodsn :=
      List.map (split_head ".") (List.filter (contains "goodsn") fname_all) in
    let is_hst := fun s => bool_decide (split_head "_" s ∈ fname_hst) in
    listdir (apps ++ "/spatialsed/filters/") = Ok fname_all ∧
    length (List.filter is_hst goodsn) = 7%nat ∧
    true_maggies obs = Some (V1 v) ∧
    length v = (14 + length (List.filter (fun s => negb (is_hst s)) goodsn))%nat ∧
    phot_mask obs = Some (repeat true (length v)).
Proof.
  intros Hlib Hmean H. apply load_obs_inputs in H
    as (apps & fname_all & fs & model & H). cbn zeta in H.
  destruct H as (_ & Hd & Hg & Hfs & _ & _ & _ & _ & H).
  destruct H as (spec & phot & extras & model' & sps' & Hm & Ht & _ & H).
  destruct H as (n & Hn & Hmask).
  apply Hmean in Hm as (spec0 & x0 & m0 & s0 & Hsed).
  apply sed_calls_get_spectrum in Hsed
    as (ow & ofs & params & raw & _ & Hofs & Hgs).
  cbn [filters component default] in Hofs, Hgs.
  injection Hofs as <-.
  apply get_spectrum_rows in Hgs as (rows & Hphot & _).
  cbn [fancy_index] in Hphot.
  apply fmap_Ok in Hphot as (v & Hv & ->).
  apply bcast_length in Hv.
  apply Hlib in Hfs.
  remember (List.map (split_head ".")
              (List.filter (contains "goodsn") fname_all)) as goodsn eqn:Eg.
  pose proof (filter_negb_length
                (fun s => bool_decide (split_head "_" s ∈ fname_hst)) goodsn)
    as Hsplit.
  unfold inverse_index, np_unique in Hv. cbn [snd] in Hv.
  rewrite !length_app, !repeat_length, !length_map, Hfs in Hv.
  rewrite !length_app, !length_map in Hv.
  change (length fname_hst) with 7%nat in Hv.
  simpl in Hn. injection Hn as <-.
  exists apps, fname_all, v. cbn zeta. rewrite <- Eg.
  split; [exact Hd|]. split; [lia|]. split; [exact Ht|].
  split; [lia|exact Hmask].
Qed.

Lemma load_obs_one_file_per_band_witness :
  ∃ obs cat',
    load_obs (host := demo) (Sc 20%Q) false run_kwargs model_params
      = Ok (obs, cat') ∧
    ∃ (apps : string) (fname_all : list string) (v : list Q),
      let goodsn :=
        List.map (split_head ".")
                 (List.filter (contains "goodsn") fname_all) in
      let is_hst := fun s => bool_decide (split_head "_" s ∈ fname_hst) in
      listdir (Host := demo) (apps ++ "/spatialsed/filters/") = Ok fname_all ∧
      length (List.filter is_hst goodsn) = 7%nat ∧
      true_maggies obs = Some (V1 v) ∧
      length v
        = (14 + length (List.filter (fun s => negb (is_hst s)) goodsn))%nat ∧
      phot_mask obs = Some (repeat true (length v)).
Proof.
  destruct (load_obs (host := demo) (Sc 20%Q) false run_kwargs model_params)
    as [[obs cat']|e] eqn:E.
  - exists obs, cat'. split; [reflexivity|].
    apply (load_obs_one_file_per_band (host := demo) (Sc 20%Q) false
             run_kwargs model_params cat' obs); [ | |exact E].
    + intros names dir fs [= <-]. apply length_map.
    + intros m th o s spec phot x m' s' Hm. exists spec, x, m', s'. exact Hm.
  - vm_compute in E. discriminate E.
Defined.

(** X9: the mock parameters of [load_obs].  Updating the model with the
    keywords adds no parameter and drops none: a parameter the keywords name
    takes [np.atleast_1d] of the keyword, every other parameter keeps its
    value, and a keyword that names no parameter is not taken. *)
Theorem mock_overrides_lookup {F : Type} {num : Numeric F}
    (mod_keys : gmap string (pval F)) (kwargs : gmap string pyval)
    (k : string) :
  (mock_overrides mod_keys kwargs ∪ mod_keys) !! k =
    match mod_keys !! k with
    | None => None
    | Some v => Some (match kwargs !! k with
                      | Some w => atleast_1d_of w
                      | None => v
                      end)
    end.
Proof.
  unfold mock_overrides. rewrite lookup_union, lookup_fmap.
  destruct (mod_keys !! k) as [v|] eqn:Ek.
  - destruct (kwargs !! k) as [w|] eqn:Ew.
    + assert (E : filter (fun kv : string * pyval =>
                            is_Some (mod_keys !! fst kv)) kwargs !! k = Some w).
      { apply map_lookup_filter_Some. split; [exact Ew|]. simpl. eauto. }
      rewrite E. reflexivity.
    + assert (E : filter (fun kv : string * pyval =>
                            is_Some (mod_keys !! fst kv)) kwargs !! k = None).
      { apply map_lookup_filter_None. left. exact Ew. }
      rewrite E. reflexivity.
  - assert (E : filter (fun kv : string * pyval =>
                          is_Some (mod_keys !! fst kv)) kwargs !! k = None).
    { apply map_lookup_filter_None. right. intros w _ [u Hu]. simpl in Hu.
      congruence. }
    rewrite E. reflexivity.
Qed.

(** ** Errors of the source and of the model *)

Section SourceErrors.
Context {F : Type} {num : Numeric F} {host : Host F}.

(** A returning call of [get_galaxy_spectrum] has updated the parameters
    and found at least one mass. *)
Lemma get_galaxy_spectrum_Ok (self self' : SpatialSource F)
    (params : gmap string (pval F)) (wave : list F) (spectrum mfrac : nd F) :
  get_galaxy_spectrum self params = Ok (wave, spectrum, mfrac, self') →
  self' = {| sps_params := update params (sps_params self) |} ∧
  ∃ mass, mass_array (update params (sps_params self)) = Ok mass ∧
          mass ≠ [].
Proof.
  intros H. unfold get_galaxy_spectrum in H. cbn zeta in H.
  cbn [sps_params] in H.
  apply bind_Ok in H as (mass & Em & H).
  apply bind_Ok in H as (comps & Ec & H).
  apply bind_Ok in H as (spectrum0 & _ & H).
  apply bind_Ok in H as (wave0 & Ew & H).
  apply bind_Ok in H as (row & _ & H).
  apply bind_Ok in H as (stacked & _ & H).
  injection H as _ _ _ <-. split; [reflexivity|].
  exists mass. split; [exact Em|]. intros ->.
  simpl in Ec. injection Ec as <-. discriminate Ew.
Qed.

End SourceErrors.

(** X10: without a ['mass'] among the parameters of the source after the
    update, [get_galaxy_spectrum] and [get_spectrum] raise [KeyError] for
    ['mass'], whatever the filters and the component asked for. *)
Theorem get_spectrum_missing_mass {F : Type} {num : Numeric F}
    {host : Host F} (self : SpatialSource F) (outwave : option (nd F))
    (filters : option (list (Filter F))) (component : selector)
    (params : gmap string (pval F)) :
  update params (sps_params self) !! "mass" = None →
  get_galaxy_spectrum self params = Err (KeyError "mass") ∧
  get_spectrum self outwave filters component params = Err (KeyError "mass").
Proof.
  intros H.
  assert (E : get_galaxy_spectrum self params = Err (KeyError "mass")).
  { unfold get_galaxy_spectrum. cbn zeta. cbn [sps_params].
    unfold mass_array, getitem. rewrite H. reflexivity. }
  split; [exact E|]. unfold get_spectrum. rewrite E. reflexivity.
Qed.

Lemma get_spectrum_missing_mass_witness :
  update (Host := demo) ∅ (sps_params demo_source) !! "mass" = None ∧
  get_galaxy_spectrum (host := demo) demo_source ∅ = Err (KeyError "mass") ∧
  get_spectrum (host := demo) demo_source None (Some demo_filters) (CInt 0) ∅
    = Err (KeyError "mass").
Proof.
  split; [reflexivity|].
  apply (get_spectrum_missing_mass (host := demo)). reflexivity.
Defined.

(** X11: with an empty ['mass'] array the loop over the components does
    not run, [wave] is never assigned, and [get_galaxy_spectrum] raises
    [UnboundLocalError] for [wave] at its [return]; so does
    [get_spectrum]. *)
Theorem get_galaxy_spectrum_no_component {F : Type} {num : Numeric F}
    {host : Host F} (self : SpatialSource F) (outwave : option (nd F))
    (filters : option (list (Filter F))) (component : selector)
    (params : gmap string (pval F)) :
  update params (sps_params self) !! "mass" = Some (VNum (V1 [])) →
  get_galaxy_spectrum self params = Err (UnboundLocalError "wave") ∧
  get_spectrum self outwave filters component params
    = Err (UnboundLocalError "wave").
Proof.
  intros H.
  assert (E : get_galaxy_spectrum self params
              = Err (UnboundLocalError "wave")).
  { unfold get_galaxy_spectrum. cbn zeta. cbn [sps_params].
    unfold mass_array, getitem. rewrite H. cbn.
    destruct (mass_units_is_mstar _); reflexivity. }
  split; [exact E|]. unfold get_spectrum. rewrite E. reflexivity.
Qed.

Lemma get_galaxy_spectrum_no_component_witness :
  update (Host := demo) (<["mass" := VNum (V1 [])]> ∅)
    (sps_params demo_source) !! "mass" = Some (VNum (V1 [])) ∧
  get_galaxy_spectrum (host := demo) demo_source (<["mass" := VNum (V1 [])]> ∅)
    = Err (UnboundLocalError "wave") ∧
  get_spectrum (host := demo) demo_source None (Some demo_filters) (CInt 0)
    (<["mass" := VNum (V1 [])]> ∅) = Err (UnboundLocalError "wave").
Proof.
  split; [reflexivity|].
  apply (get_galaxy_spectrum_no_component (host := demo)). reflexivity.
Defined.

(** X12: [sed] reads ['wavelength'] and ['filters'] from [obs] by
    subscript: without the key ['wavelength'] it raises [KeyError] for it,
    and with it but without ['filters'] it raises [KeyError] for
    ['filters'], whatever the model, the parameter vector and the
    source. *)
Theorem sed_missing_key {F : Type} {num : Numeric F} {host : Host F}
    (self : SpatialSedModel F) (th : list F) (obs : Obs F)
    (sps : SpatialSource F) :
  (wavelength obs = None →
   sed self th obs sps = Err (KeyError "wavelength")) ∧
  (is_Some (wavelength obs) → filters obs = None →
   sed self th obs sps = Err (KeyError "filters")).
Proof.
  unfold sed. split.
  - intros ->. reflexivity.
  - intros [w ->] ->. reflexivity.
Qed.

(** X13: a call of [sed] on an [obs] whose ['filters'] is [None] never
    returns, whatever the model, the parameter vector and the source:
    [get_spectrum], which it calls with these filters, never does. *)
Theorem sed_filters_None {F : Type} {num : Numeric F} {host : Host F}
    (self : SpatialSedModel F) (th : list F) (obs : Obs F)
    (sps : SpatialSource F) :
  filters obs = Some None → ¬ returns (sed self th obs sps).
Proof.
  intros Hf [[[[[spec phot] extras] self'] sps'] H].
  unfold sed in H.
  apply bind_Ok in H as (ow & _ & H).
  apply bind_Ok in H as (fs & Efs & H).
  apply bind_Ok in H as (params & _ & H).
  apply bind_Ok in H as (r & Eg & _).
  rewrite Hf in Efs. injection Efs as <-.
  eapply raises_not_returns; [apply get_spectrum_no_filters_raises|].
  exists r. exact Eg.
Qed.

Lemma sed_filters_None_witness :
  filters (F := Q)
    {| filters := Some None; component := None; wavelength := Some None;
       normalization_guess := None; lnwavegrid := None;
       maggies := None; maggies_unc := None; mock_snr := None;
       phot_mask := None; true_spectrum := None; true_maggies := None;
       mock_params := None |} = Some None ∧
  ¬ returns
      (sed (host := demo)
         {| mod_config := model_params;
            mod_params := configure (Host := demo) model_params;
            _spec := None |} []
         {| filters := Some None; component := None; wavelength := Some None;
            normalization_guess := None; lnwavegrid := None;
            maggies := None; maggies_unc := None; mock_snr := None;
            phot_mask := None; true_spectrum := None; true_maggies := None;
            mock_params := None |}
         demo_source).
Proof.
  split; [reflexivity|].
  apply (sed_filters_None (host := demo)). reflexivity.
Defined.

(** X14: a model with a parameter named like one of the keywords that [sed]
    passes to [get_spectrum] by name ([outwave], [filters], [component],
    [lnwavegrid]) cannot be evaluated: the call has two values for that
    keyword, and [sed] raises [TypeError] once it has read [obs]. *)
Theorem sed_keyword_clash {F : Type} {num : Numeric F} {host : Host F}
    (self : SpatialSedModel F) (th : list F) (obs : Obs F)
    (sps : SpatialSource F) (k : string) :
  k ∈ named_keywords →
  is_Some (set_parameters th (mod_params self) !! k) →
  is_Some (wavelength obs) → is_Some (filters obs) →
  sed self th obs sps
    = Err (TypeError "got multiple values for keyword argument").
Proof.
  intros Hk Hs [w Hw] [f Hf]. unfold sed. rewrite Hw, Hf.
  cbn [mbind result_bind]. cbn zeta. cbn [mod_params].
  assert (E : forallb
                (fun k => bool_decide
                            (set_parameters th (mod_params self) !! k = None))
                named_keywords = false).
  { apply not_true_is_false. intros Hall.
    rewrite forallb_forall in Hall.
    apply list_elem_of_In in Hk. specialize (Hall k Hk).
    apply bool_decide_eq_true_1 in Hall. destruct Hs as [v Hv]. congruence. }
  rewrite E. reflexivity.
Qed.

Lemma sed_keyword_clash_witness :
  sed (host := demo)
    {| mod_config := []; mod_params := <["filters" := VNone]> ∅;
       _spec := None |} []
    {| filters := Some None; component := None; wavelength := Some None;
       normalization_guess := None; lnwavegrid := None;
       maggies := None; maggies_unc := None; mock_snr := None;
       phot_mask := None; true_spectrum := None; true_maggies := None;
       mock_params := None |}
    demo_source
    = Err (TypeError "got multiple values for keyword argument").
Proof.
  apply (sed_keyword_clash (host := demo) _ _ _ _ "filters").
  - apply (bool_decide_eq_true_1 _). vm_compute. reflexivity.
  - exists VNone. reflexivity.
  - eexists. reflexivity.
  - eexists. reflexivity.
Defined.

(** ** get_spectrum: the photometry it picks *)

Section Picks.
Context {F : Type} {num : Numeric F} {host : Host F}.

(** The mass column has one row per component and one for the total, and so
    has whatever is multiplied by it. *)
Lemma mass_column_rows (op : F → F → F) (mass : list F) (s : F)
    (col a pm : nd F) :
  mass ≠ [] →
  as_column (np_squeeze_list (mass ++ [s])) = Ok col →
  np_binop op a col = Ok pm →
  ∃ rows, pm = M2 rows ∧ length rows = S (length mass).
Proof.
  intros Hm Hc Hb.
  assert (Hs : np_squeeze_list (mass ++ [s]) = V1 (mass ++ [s])).
  { destruct mass as [|x [|y mass]]; [done|reflexivity|reflexivity]. }
  rewrite Hs in Hc. simpl in Hc. injection Hc as <-.
  assert (Hl : length (List.map (fun x : F => [x]) (mass ++ [s]))
               = S (length mass)).
  { rewrite length_map, length_app. simpl. lia. }
  destruct a as [x|u|m]; simpl in Hb.
  - injection Hb as <-. eexists. split; [reflexivity|].
    by rewrite length_map.
  - apply fmap_Ok in Hb as (l & Hl' & ->). apply for_each_length in Hl'.
    eexists. split; [reflexivity|]. congruence.
  - apply fmap_Ok in Hb as (l & Hl' & ->). apply bcast_length in Hl'.
    eexists. split; [reflexivity|]. rewrite Hl in Hl'.
    destruct mass; [done|]. simpl in Hl' |- *. lia.
Qed.

(** A returning call with filters has picked its photometry from a matrix
    of one row per component and one for the total. *)
Lemma get_spectrum_matrix (self : SpatialSource F) (outwave : option (nd F))
    (fs : list (Filter F)) (component : selector)
    (params : gmap string (pval F)) (sa phot mfrac : nd F)
    (self' : SpatialSource F) :
  get_spectrum self outwave (Some fs) component params
    = Ok (sa, phot, mfrac, self') →
  ∃ (rows : list (list F)) (mass : list F),
    mass_array (update params (sps_params self)) = Ok mass ∧
    length rows = S (length mass) ∧
    fancy_index (M2 rows) component (inverse_index fs) = Ok phot.
Proof.
  intros H. unfold get_spectrum in H.
  apply bind_Ok in H as ([[[wave spectrum] mfrac0] self0] & E1 & H).
  cbn beta iota zeta in H.
  apply bind_Ok in H as (a & E2 & H).
  apply bind_Ok in H as (b & E3 & H).
  apply bind_Ok in H as (wa & E4 & H).
  apply bind_Ok in H as (sa0 & E5 & H).
  apply bind_Ok in H as ([p0 fi] & E6 & H).
  cbn beta iota zeta in H.
  apply bind_Ok in H as (near & E7 & H).
  apply bind_Ok in H as (dfactor & E8 & H).
  apply bind_Ok in H as (sa1 & E9 & H).
  apply bind_Ok in H as (p1 & E10 & H).
  apply bind_Ok in H as (mass & E11 & H).
  apply bind_Ok in H as (col & E12 & H).
  apply bind_Ok in H as (sa2 & E13 & H).
  apply bind_Ok in H as (pm & E14 & H).
  apply bind_Ok in H as (fi' & E15 & H).
  apply bind_Ok in H as (phot' & E16 & H).
  injection H as <- <- <- <-.
  rewrite project_Some in E6.
  apply project_with_Ok in E6 as (_ & -> & _).
  injection E15 as <-.
  apply get_galaxy_spectrum_Ok in E1 as (-> & mass' & Em & Hne).
  cbn [sps_params] in E11. rewrite Em in E11. injection E11 as <-.
  destruct (mass_column_rows _ _ _ _ _ _ Hne E12 E14) as (rows & -> & Hrows).
  exists rows, mass'. auto.
Qed.

Lemma wrap_index_bounds (n : nat) (c : Z) (r : nat) :
  wrap_index n c = Ok r → (- Z.of_nat n ≤ c < Z.of_nat n)%Z.
Proof.
  unfold wrap_index.
  destruct (0 <=? c)%Z eqn:E1, (c <? Z.of_nat n)%Z eqn:E2; simpl;
    destruct (c <? 0)%Z eqn:E3, (- Z.of_nat n <=? c)%Z eqn:E4; simpl;
    try discriminate; intros _; lia.
Qed.

Lemma inverse_index_length (fs : list (Filter F)) :
  length (inverse_index fs) = length fs.
Proof. unfold inverse_index, np_unique. cbn [snd]. by rewrite !length_map. Qed.

End Picks.

(** X15: the photometry that [get_spectrum] returns for a list of filters
    is a 1-d array.  With one component index it has one value per filter of
    the list, repeated filters included; with an array of indices, the two
    are broadcast: equal lengths, or one of them of length one. *)
Theorem get_spectrum_phot_length {F : Type} {num : Numeric F}
    {host : Host F} (self : SpatialSource F) (outwave : option (nd F))
    (fs : list (Filter F)) (component : selector)
    (params : gmap string (pval F)) (sa phot mfrac : nd F)
    (self' : SpatialSource F) :
  get_spectrum self outwave (Some fs) component params
    = Ok (sa, phot, mfrac, self') →
  ∃ v, phot = V1 v ∧
    match component with
    | CInt _ => length v = length fs
    | CArr cs =>
        (length cs = length fs ∧ length v = length fs) ∨
        (length cs = 1%nat ∧ length v = length fs) ∨
        (length fs = 1%nat ∧ length v = length cs)
    end.
Proof.
  intros H.
  apply get_spectrum_matrix in H as (rows & mass & _ & _ & H).
  unfold fancy_index in H. destruct component as [c|cs].
  - apply fmap_Ok in H as (v & Hv & ->). exists v. split; [reflexivity|].
    apply for_each_length in Hv. by rewrite Hv, inverse_index_length.
  - apply fmap_Ok in H as (v & Hv & ->). exists v. split; [reflexivity|].
    apply bcast_length in Hv. rewrite inverse_index_length in Hv. exact Hv.
Qed.

Lemma get_spectrum_phot_length_witness :
  ∃ sa phot mfrac self',
    get_spectrum (host := demo) demo_source None (Some demo_filters)
      (CArr [0; 1; -1]%Z) demo_params = Ok (sa, phot, mfrac, self') ∧
    ∃ v, phot = V1 v ∧
      ((length [0; 1; -1]%Z = length demo_filters ∧
        length v = length demo_filters) ∨
       (length [0; 1; -1]%Z = 1%nat ∧ length v = length demo_filters) ∨
       (length demo_filters = 1%nat ∧ length v = length [0; 1; -1]%Z)).
Proof.
  destruct (get_spectrum (host := demo) demo_source None (Some demo_filters)
              (CArr [0; 1; -1]%Z) demo_params)
    as [[[[sa phot] mfrac] self']|e] eqn:E.
  - exists sa, phot, mfrac, self'. split; [reflexivity|].
    exact (get_spectrum_phot_length _ _ _ _ _ _ _ _ _ E).
  - vm_compute in E. discriminate E.
Defined.

(** X16: the component indices of a call that returns.  With [n] masses
    and at least one filter, every index asked for lies between [-(n+1)]
    and [n]: the rows [0 .. n-1] are the components and the row [n] is the
    total; an index outside makes the call raise. *)
Theorem get_spectrum_component_bounds {F : Type} {num : Numeric F}
    {host : Host F} (self : SpatialSource F) (outwave : option (nd F))
    (fs : list (Filter F)) (component : selector)
    (params : gmap string (pval F)) (sa phot mfrac : nd F)
    (self' : SpatialSource F) :
  fs ≠ [] →
  get_spectrum self outwave (Some fs) component params
    = Ok (sa, phot, mfrac, self') →
  ∃ mass, mass_array (update params (sps_params self)) = Ok mass ∧
    ∀ c, c ∈ match component with CInt c => [c] | CArr cs => cs end →
         (- (Z.of_nat (length mass) + 1) ≤ c ≤ Z.of_nat (length mass))%Z.
Proof.
  intros Hfs H.
  apply get_spectrum_matrix in H as (rows & mass & Hm & Hrows & H).
  exists mass. split; [exact Hm|].
  assert (Hfi : inverse_index fs ≠ []).
  { intros E. apply (f_equal length) in E.
    rewrite inverse_index_length in E. by destruct fs. }
  assert (Hb : ∀ c j x, item2 rows c j = Ok x →
               (- (Z.of_nat (length mass) + 1) ≤ c ≤ Z.of_nat (length mass))%Z).
  { intros c j x Hx. apply item2_Ok in Hx as (r & row & Hc & _).
    apply wrap_index_bounds in Hc. lia. }
  unfold fancy_index in H. destruct component as [c|cs].
  - apply fmap_Ok in H as (v & Hv & ->).
    intros c' Hc'. apply list_elem_of_singleton in Hc' as ->.
    destruct (inverse_index fs) as [|j fi]; [done|].
    simpl in Hv. apply bind_Ok in Hv as (x & Hx & _). by eapply Hb.
  - apply fmap_Ok in H as (v & Hv & ->).
    intros c Hc. unfold bcast in Hv.
    destruct (Nat.eqb_spec (length cs) (length (inverse_index fs))) as [E|E].
    + apply list_elem_of_lookup in Hc as [i Hi].
      destruct (lookup_lt_is_Some_2 (inverse_index fs) i) as [j Hj].
      { rewrite <- E. by eapply lookup_lt_Some. }
      assert (Hz : zip cs (inverse_index fs) !! i = Some (c, j)).
      { apply lookup_zip_with_Some. eauto. }
      assert (Hin : (c, j) ∈ zip cs (inverse_index fs))
        by (apply list_elem_of_lookup; eauto).
      clear Hz Hi Hj E. revert v Hv.
      induction (zip cs (inverse_index fs)) as [|p l IH]; intros v Hv;
        [by apply elem_of_nil in Hin|].
      simpl in Hv. apply bind_Ok in Hv as (x & Hx & Hv).
      apply bind_Ok in Hv as (v' & Hv' & _).
      apply elem_of_cons in Hin as [<-|Hin]; [by eapply Hb|].
      by eapply IH.
    + destruct cs as [|c0 [|c1 cs]].
      * by apply elem_of_nil in Hc.
      * apply list_elem_of_singleton in Hc as ->.
        destruct (inverse_index fs) as [|j fi]; [done|].
        simpl in Hv. apply bind_Ok in Hv as (x & Hx & _). by eapply Hb.
      * destruct (inverse_index fs) as [|j [|j' fi]]; try discriminate.
        clear E. revert v Hv.
        induction (c0 :: c1 :: cs) as [|p l IH]; intros v Hv;
          [by apply elem_of_nil in Hc|].
        simpl in Hv. apply bind_Ok in Hv as (x & Hx & Hv).
        apply bind_Ok in Hv as (v' & Hv' & _).
        apply elem_of_cons in Hc as [->|Hc]; [by eapply Hb|].
        by eapply IH.
Qed.

Lemma get_spectrum_component_bounds_witness :
  demo_filters ≠ [] ∧
  ∃ sa phot mfrac self',
    get_spectrum (host := demo) demo_source None (Some demo_filters)
      (CArr [0; 1; -1]%Z) demo_params = Ok (sa, phot, mfrac, self') ∧
    ∃ mass,
      mass_array (update (Host := demo) demo_params (sps_params demo_source))
        = Ok mass ∧
      ∀ c, c ∈ [0; 1; -1]%Z →
           (- (Z.of_nat (length mass) + 1) ≤ c ≤ Z.of_nat (length mass))%Z.
Proof.
  assert (Hne : demo_filters ≠ []) by discriminate.
  split; [exact Hne|].
  destruct (get_spectrum (host := demo) demo_source None (Some demo_filters)
              (CArr [0; 1; -1]%Z) demo_params)
    as [[[[sa phot] mfrac] self']|e] eqn:E.
  - exists sa, phot, mfrac, self'. split; [reflexivity|].
    exact (get_spectrum_component_bounds _ _ _ _ _ _ _ _ _ Hne E).
  - vm_compute in E. discriminate E.
Defined.

(** ** get_spectrum: statement by statement *)

Lemma bind_ext {A B} (m : result A) (f g : A → result B) :
  (∀ a, m = Ok a → f a = g a) → m ≫= f = m ≫= g.
Proof. destruct m as [a|e]; [intros H; exact (H a eq_refl)|reflexivity]. Qed.

Section Total.
Context {F : Type} {num : Numeric F} {host : Host F}.

Lemma wrap_index_total (n : nat) :
  wrap_index (S n) (Z.of_nat n) = wrap_index (S n) (-1).
Proof.
  unfold wrap_index.
  destruct (Z.leb_spec 0 (Z.of_nat n)); [|lia].
  destruct (Z.ltb_spec (Z.of_nat n) (Z.of_nat (S n))); [|lia].
  destruct (Z.leb_spec 0 (-1)); [lia|].
  destruct (Z.ltb_spec (-1) 0); [|lia].
  destruct (Z.leb_spec (- Z.of_nat (S n)) (-1)); [|lia].
  simpl. f_equal. lia.
Qed.

Lemma for_each_ext {A B} (f g : A → result B) (xs : list A) :
  (∀ x, f x = g x) → for_each f xs = for_each g xs.
Proof.
  intros H. induction xs as [|x xs IH]; [reflexivity|].
  simpl. by rewrite H, IH.
Qed.

End Total.

(** X17: the index of the total.  With [n] masses, the component index
    [n] and the default [-1] are one and the same row, the mass-weighted
    total: the two calls of [get_spectrum] give the same result, or raise
    the same exception. *)
Theorem get_spectrum_total_component {F : Type} {num : Numeric F}
    {host : Host F} (self : SpatialSource F) (outwave : option (nd F))
    (filters : option (list (Filter F))) (params : gmap string (pval F))
    (mass : list F) :
  mass_array (update params (sps_params self)) = Ok mass →
  get_spectrum self outwave filters (CInt (Z.of_nat (length mass))) params
    = get_spectrum self outwave filters (CInt (-1)) params.
Proof.
  intros Hm. unfold get_spectrum.
  apply bind_ext. intros [[[wave spectrum] mfrac0] self0] E1.
  cbn beta iota zeta.
  do 4 (apply bind_ext; intros ? _).
  apply bind_ext. intros [p0 fi0] _. cbn beta iota zeta.
  do 4 (apply bind_ext; intros ? _).
  apply bind_ext. intros mass' E11.
  apply bind_ext. intros col E12.
  apply bind_ext. intros sa2 _.
  apply bind_ext. intros pm E14.
  apply bind_ext. intros fi _.
  apply get_galaxy_spectrum_Ok in E1 as (-> & mass0 & Em & Hne).
  cbn [sps_params] in E11.
  assert (mass' = mass) as -> by congruence.
  assert (mass0 = mass) as -> by congruence.
  destruct (mass_column_rows _ _ _ _ _ _ Hne E12 E14) as (rows & -> & Hrows).
  unfold fancy_index. f_equal. f_equal.
  apply for_each_ext. intros j. unfold item2.
  rewrite Hrows, wrap_index_total. reflexivity.
Qed.

Lemma get_spectrum_total_component_witness :
  mass_array (update (Host := demo) demo_params (sps_params demo_source))
    = Ok [4e10; 1e10]%Q ∧
  get_spectrum (host := demo) demo_source None (Some demo_filters)
    (CInt (Z.of_nat (length [4e10; 1e10]%Q))) demo_params
    = get_spectrum (host := demo) demo_source None (Some demo_filters)
        (CInt (-1)) demo_params.
Proof.
  split; [reflexivity|].
  apply (get_spectrum_total_component (host := demo)). reflexivity.
Defined.

Lemma bind_ext2 {A B} (m1 m2 : result A) (f g : A → result B) :
  m1 = m2 → (∀ a, m2 = Ok a → f a = g a) → m1 ≫= f = m2 ≫= g.
Proof. intros ->. apply bind_ext. Qed.

(** X18: the cosmology is not consulted where the redshift is zero or the
    parameters have a ['lumdist']: with any other luminosity-distance
    function in the place of the library's, [get_spectrum] gives the same
    result, or raises the same exception. *)
Theorem get_spectrum_ignores_cosmology {F : Type} {num : Numeric F}
    (h : Host F) (ld : F → F) (self : SpatialSource F)
    (outwave : option (nd F)) (filters : option (list (Filter F)))
    (component : selector) (params : gmap string (pval F)) :
  is_zero (default (VNum (Sc (flit 0.0)))
             (update params (sps_params self) !! "zred")) = Ok true
  ∨ is_Some (update params (sps_params self) !! "lumdist") →
  get_spectrum (host := with_cosmology h ld) self outwave filters component
    params
  = get_spectrum (host := h) self outwave filters component params.
Proof.
  intros Hnear. unfold get_spectrum.
  apply bind_ext2; [destruct h; reflexivity|].
  intros [[[wave spectrum] mfrac0] self0] E1.
  cbn beta iota zeta.
  apply get_galaxy_spectrum_Ok in E1 as (-> & _). cbn [sps_params].
  change (@update F (with_cosmology h ld)) with (@update F h).
  apply bind_ext2; [reflexivity|]. intros a _.
  apply bind_ext2; [destruct h; reflexivity|]. intros b _.
  apply bind_ext2; [reflexivity|]. intros wa _.
  apply bind_ext2; [reflexivity|]. intros sa _.
  apply bind_ext2; [destruct h; reflexivity|]. intros [p0 fi0] _.
  cbn beta iota zeta.
  apply bind_ext2; [reflexivity|]. intros near E7.
  assert (near = true) as ->.
  { apply bind_Ok in E7 as (z0 & Ez & E7). injection E7 as <-.
    destruct Hnear as [Hz|Hl].
    - rewrite Hz in Ez. injection Ez as <-. reflexivity.
    - rewrite (bool_decide_eq_true_2 _ Hl). apply orb_true_r. }
  apply bind_ext2; [reflexivity|]. intros dfactor _.
  apply bind_ext2; [destruct h; reflexivity|]. intros sa1 _.
  reflexivity.
Qed.

(** The demo run at a distance of 10 Mpc, under a cosmology that puts
    everything at distance zero. *)
Lemma get_spectrum_ignores_cosmology_witness :
  get_spectrum (host := with_cosmology demo (fun _ => 0%Q)) demo_source None
    (Some demo_filters) (CInt (-1))
    (<["lumdist" := VNum (Sc 10%Q)]> demo_params)
  = get_spectrum (host := demo) demo_source None (Some demo_filters)
      (CInt (-1)) (<["lumdist" := VNum (Sc 10%Q)]> demo_params).
Proof.
  apply (get_spectrum_ignores_cosmology demo (fun _ => 0%Q)).
  right. eexists. reflexivity.
Defined.

Section Broadcast.
Context {F : Type} {num : Numeric F}.

Lemma for_each_Ok_map {A B} (f : A → B) (xs : list A) :
  for_each (fun x => Ok (f x)) xs = Ok (List.map f xs).
Proof.
  induction xs as [|x xs IH]; [reflexivity|]. simpl. by rewrite IH.
Qed.

(** An array against an array of one element. *)
Lemma bcast1_singleton (op : F → F → F) (row : list F) (y : F) :
  bcast1 op row [y] = Ok (List.map (fun x => op x y) row).
Proof.
  unfold bcast1, bcast. destruct row as [|a [|b row]]; try reflexivity.
  cbn [length Nat.eqb]. apply (for_each_Ok_map (fun x => op x y)).
Qed.

End Broadcast.

Lemma total_row_is_sum (m1 m2 a k : Q) (s0 s1 : list Q) :
  length s1 = length s0 → ¬ (m1 + m2 == 0)%Q →
  Forall2 Qeq
    (List.map (fun x => x * a * k * (m1 + m2))%Q (weighted_mean m1 m2 s0 s1))
    (zip_with Qplus (List.map (fun x => x * a * k * m1)%Q s0)
                    (List.map (fun x => x * a * k * m2)%Q s1)).
Proof.
  intros Hlen Hne. unfold weighted_mean.
  revert s1 Hlen. induction s0 as [|x s0 IH]; intros [|y s1] Hlen;
    try discriminate; simpl; constructor.
  - field. exact Hne.
  - apply IH. simpl in Hlen. lia.
Qed.

(** X19: in exact arithmetic, the total is the sum of the components.  For
    two components with masses in units of mass formed, at a redshift given
    as a one-element array and without a ['lumdist'], a call of
    [get_spectrum] that returns gives a spectrum of three rows, the first
    two for the components and the third, the mass-weighted composite
    times the total mass, equal value by value to the sum of the first
    two. *)
Theorem get_spectrum_total_is_sum (host : Host Q) (self : SpatialSource Q)
    (outwave : option (nd Q)) (fs : list (Filter Q)) (component : selector)
    (params : gmap string (pval Q)) (m1 m2 z f0 f1 : Q)
    (w0 w1 s0 s1 : list Q) (sa phot mfrac : nd Q)
    (self' : SpatialSource Q) :
  mass_array (update params (sps_params self)) = Ok [m1; m2] →
  mass_units_is_mstar (update params (sps_params self)) = false →
  update params (sps_params self) !! "zred" = Some (VNum (V1 [z])) →
  update params (sps_params self) !! "lumdist" = None →
  ssp_component (update params (sps_params self)) 0 = Ok (w0, s0, f0) →
  ssp_component (update params (sps_params self)) 1 = Ok (w1, s1, f1) →
  length s1 = length s0 → (2 ≤ length s0)%nat →
  ¬ (m1 + m2 == 0)%Q →
  get_spectrum self outwave (Some fs) component params
    = Ok (sa, phot, mfrac, self') →
  ∃ r0 r1 r2 : list Q,
    sa = M2 [r0; r1; r2] ∧
    length r0 = length s0 ∧ length r1 = length s0 ∧
    Forall2 Qeq r2 (zip_with Qplus r0 r1).
Proof.
  intros Hm Hu Hz Hl H0 H1 Hlen H2 Hne H.
  pose proof (get_galaxy_spectrum_two self params m1 m2 f0 f1 w0 w1 s0 s1
                Hm H0 H1 Hlen) as Hg.
  cbn zeta in Hg. rewrite Hu in Hg.
  assert (Hs : np_squeeze_rows [s0; s1; weighted_mean m1 m2 s0 s1]
               = Ok (M2 [s0; s1; weighted_mean m1 m2 s0 s1])).
  { unfold np_squeeze_rows, rectangular. cbn [forallb].
    rewrite (weighted_mean_length m1 m2 s0 s1 Hlen), Hlen, Nat.eqb_refl.
    cbn [andb]. destruct s0 as [|x [|y s0]]; simpl in H2; try lia.
    reflexivity. }
  rewrite Hs in Hg. cbn [mbind result_bind] in Hg.
  unfold get_spectrum in H. rewrite Hg in H.
  cbn beta iota zeta delta [mbind result_bind] in H. cbn [sps_params] in H.
  rewrite Hz, Hl, Hm in H. clear Hg Hs.
  apply bind_Ok in H as (a & Ea & H).
  cbn in Ea. injection Ea as <-.
  apply bind_Ok in H as (b & _ & H).
  apply bind_Ok in H as (wa & _ & H).
  apply bind_Ok in H as (sa0 & Esa0 & H).
  cbn [np_binop fmap result_fmap for_each] in Esa0.
  rewrite !bcast1_singleton in Esa0.
  cbn [mbind result_bind fmap result_fmap] in Esa0. injection Esa0 as <-.
  apply bind_Ok in H as ([p0 fi] & _ & H).
  cbn beta iota zeta in H.
  apply bind_Ok in H as (near & _ & H).
  apply bind_Ok in H as (d & Ed & H).
  assert (Hd : (∃ x, d = Sc x) ∨ (∃ x, d = V1 [x])).
  { destruct near; cbn in Ed; injection Ed as <-; eauto. }
  clear Ed.
  apply bind_Ok in H as (sa1 & Esa1 & H).
  apply bind_Ok in H as (phot0 & _ & H).
  cbn [mbind result_bind app np_squeeze_list as_column List.map] in H.
  apply bind_Ok in H as (sa2 & Esa2 & H).
  apply bind_Ok in H as (pm & _ & H).
  apply bind_Ok in H as (fi' & _ & H).
  apply bind_Ok in H as (phot1 & _ & H).
  injection H as <- _ _ _.
  apply bind_Ok in Esa1 as (k & Ek & Esa1).
  apply bind_Ok in Esa1 as (k0 & Ek0 & Esa1).
  unfold np_inplace in Esa1.
  apply bind_Ok in Esa1 as (r & Er & Esa1).
  destruct (same_shape r _); [|discriminate]. injection Esa1 as <-.
  assert (Hr : ∃ kk : Q,
            r = M2 [List.map (fun x => x * kk)%Q
                      (List.map (fun x => x * (1 + z))%Q s0);
                    List.map (fun x => x * kk)%Q
                      (List.map (fun x => x * (1 + z))%Q s1);
                    List.map (fun x => x * kk)%Q
                      (List.map (fun x => x * (1 + z))%Q
                                (weighted_mean m1 m2 s0 s1))]).
  { destruct Hd as [[x ->]|[x ->]]; cbn in Ek; injection Ek as <-;
      cbn in Ek0; injection Ek0 as <-.
    - cbn in Er. injection Er as <-. eexists. reflexivity.
    - cbn [np_binop fmap result_fmap for_each] in Er.
      rewrite !bcast1_singleton in Er.
      cbn [mbind result_bind fmap result_fmap] in Er.
      injection Er as <-. eexists. reflexivity. }
  destruct Hr as [kk ->].
  cbn [np_binop fmap result_fmap bcast length Nat.eqb zip zip_with for_each
       fst snd] in Esa2.
  rewrite !bcast1_singleton in Esa2.
  cbn [mbind result_bind fmap result_fmap] in Esa2. injection Esa2 as <-.
  eexists _, _, _. split; [reflexivity|].
  rewrite !length_map. split; [reflexivity|]. split; [exact Hlen|].
  rewrite !List.map_map. cbn [np_sum fold_left].
  apply (total_row_is_sum m1 m2 (1 + z) kk s0 s1 Hlen Hne).
Qed.

(** The demo run: component rows [[1; 2; 3]] and [[2; 2; 3]] with the
    masses of [run_params] at redshift 1. *)
Lemma get_spectrum_total_is_sum_witness :
  ∃ sa phot mfrac self',
    get_spectrum (host := demo) demo_source None (Some demo_filters)
      (CInt (-1)) demo_params = Ok (sa, phot, mfrac, self') ∧
    ∃ r0 r1 r2 : list Q,
      sa = M2 [r0; r1; r2] ∧
      length r0 = length [1; 2; 3]%Q ∧ length r1 = length [1; 2; 3]%Q ∧
      Forall2 Qeq r2 (zip_with Qplus r0 r1).
Proof.
  destruct (get_spectrum (host := demo) demo_source None (Some demo_filters)
              (CInt (-1)) demo_params)
    as [[[[sa phot] mfrac] self']|e] eqn:E.
  - exists sa, phot, mfrac, self'. split; [reflexivity|].
    apply (get_spectrum_total_is_sum demo demo_source None demo_filters
             (CInt (-1)) demo_params 4e10%Q 1e10%Q 1%Q 0.5%Q 0.5%Q
             demo_wave demo_wave [1; 2; 3]%Q [2; 2; 3]%Q sa phot mfrac self');
      [reflexivity|reflexivity|reflexivity|reflexivity|reflexivity
      |reflexivity|reflexivity|simpl; lia| |exact E].
    intros Hq. vm_compute in Hq. discriminate Hq.
  - vm_compute in E. discriminate E.
Defined.

Lemma weighted_fraction_between (a b f0 f1 : Q) :
  (0 < a)%Q → (0 < b)%Q → (f0 <= f1)%Q →
  (f0 <= (a * f0 + b * f1) / (a + b))%Q ∧
  ((a * f0 + b * f1) / (a + b) <= f1)%Q.
Proof.
  intros Ha Hb Hf.
  assert (Hab : (0 < a + b)%Q).
  { apply (Qplus_lt_le_compat 0 a 0 b); [exact Ha|by apply Qlt_le_weak]. }
  split.
  - apply Qle_shift_div_l; [exact Hab|].
    setoid_replace (f0 * (a + b))%Q with (a * f0 + b * f0)%Q
      using relation Qeq by ring.
    apply Qplus_le_compat; [apply Qle_refl|].
    rewrite !(Qmult_comm b). apply Qmult_le_compat_r; [exact Hf|].
    by apply Qlt_le_weak.
  - apply Qle_shift_div_r; [exact Hab|].
    setoid_replace (f1 * (a + b))%Q with (a * f1 + b * f1)%Q
      using relation Qeq by ring.
    apply Qplus_le_compat; [|apply Qle_refl].
    rewrite !(Qmult_comm a). apply Qmult_le_compat_r; [exact Hf|].
    by apply Qlt_le_weak.
Qed.

(** X20: the surviving fraction of the composite lies between those of the
    components.  For two components with positive masses (and, under
    ['mstar'] units, positive fractions), a call that returns gives the
    fractions [f0], [f1] and a third one that is at least the smaller and at
    most the larger of the two. *)
Theorem composite_fraction_between (host : Host Q) (self : SpatialSource Q)
    (params : gmap string (pval Q)) (m1 m2 f0 f1 : Q)
    (w0 w1 s0 s1 wave : list Q) (spectrum mfrac : nd Q)
    (self' : SpatialSource Q) :
  mass_array (update params (sps_params self)) = Ok [m1; m2] →
  ssp_component (update params (sps_params self)) 0 = Ok (w0, s0, f0) →
  ssp_component (update params (sps_params self)) 1 = Ok (w1, s1, f1) →
  length s1 = length s0 →
  (0 < m1)%Q → (0 < m2)%Q →
  (mass_units_is_mstar (update params (sps_params self)) = true →
   (0 < f0)%Q ∧ (0 < f1)%Q) →
  get_galaxy_spectrum self params = Ok (wave, spectrum, mfrac, self') →
  ∃ fsum : Q,
    mfrac = V1 [f0; f1; fsum] ∧
    ((f0 <= f1)%Q → (f0 <= fsum)%Q ∧ (fsum <= f1)%Q) ∧
    ((f1 <= f0)%Q → (f1 <= fsum)%Q ∧ (fsum <= f0)%Q).
Proof.
  intros Hm H0 H1 Hlen Hm1 Hm2 Hf H.
  pose proof (get_galaxy_spectrum_two self params m1 m2 f0 f1 w0 w1 s0 s1
                Hm H0 H1 Hlen) as Hg.
  cbn zeta in Hg.
  remember (if mass_units_is_mstar (update params (sps_params self))
            then fdiv m1 f0 else m1) as a eqn:Ea.
  remember (if mass_units_is_mstar (update params (sps_params self))
            then fdiv m2 f1 else m2) as b eqn:Eb.
  rewrite Hg in H.
  apply bind_Ok in H as (stacked & _ & H). injection H as _ _ <- _.
  assert (Hab : (0 < a)%Q ∧ (0 < b)%Q).
  { subst a b. destruct (mass_units_is_mstar _).
    - destruct (Hf eq_refl) as [Hf0 Hf1]. simpl. unfold Qdiv. split.
      + apply Qmult_lt_0_compat; [exact Hm1|by apply Qinv_lt_0_compat].
      + apply Qmult_lt_0_compat; [exact Hm2|by apply Qinv_lt_0_compat].
    - split; assumption. }
  destruct Hab as [Ha Hb].
  eexists. split; [reflexivity|]. cbn [fdiv fadd fmul Q_numeric]. split.
  - intros Hle. exact (weighted_fraction_between a b f0 f1 Ha Hb Hle).
  - intros Hle.
    destruct (weighted_fraction_between b a f1 f0 Hb Ha Hle) as [L U].
    setoid_replace (a * f0 + b * f1)%Q with (b * f1 + a * f0)%Q
      using relation Qeq by ring.
    setoid_replace (a + b)%Q with (b + a)%Q using relation Qeq by ring.
    split; assumption.
Qed.

Lemma composite_fraction_between_witness :
  ∃ wave spectrum mfrac self',
    get_galaxy_spectrum (host := demo_fading) demo_source demo_params
      = Ok (wave, spectrum, mfrac, self') ∧
    ∃ fsum : Q,
      mfrac = V1 [(1 # 2)%Q; (1 # 3)%Q; fsum] ∧
      ((1 # 2 <= 1 # 3)%Q → (1 # 2 <= fsum)%Q ∧ (fsum <= 1 # 3)%Q) ∧
      ((1 # 3 <= 1 # 2)%Q → (1 # 3 <= fsum)%Q ∧ (fsum <= 1 # 2)%Q).
Proof.
  destruct (get_galaxy_spectrum (host := demo_fading) demo_source demo_params)
    as [[[[wave spectrum] mfrac] self']|e] eqn:E.
  - exists wave, spectrum, mfrac, self'. split; [reflexivity|].
    apply (composite_fraction_between demo_fading demo_source demo_params
             4e10%Q 1e10%Q (1 # 2)%Q (1 # 3)%Q demo_wave demo_wave
             [1; 2; 3]%Q [2; 2; 3]%Q wave spectrum mfrac self');
      [reflexivity|reflexivity|reflexivity|reflexivity|reflexivity
      |reflexivity| |exact E].
    intros _. split; reflexivity.
  - vm_compute in E. discriminate E.
Defined.

(** ** The catalog and its layout *)

Lemma theta_slots_set_init (z : pyval) (i : nat) (cat : list ParameterSpec) :
  theta_slots (alter (set_init z) i cat) = theta_slots cat.
Proof.
  unfold theta_slots, free_params. revert i.
  induction cat as [|p cat IH]; intros [|i]; try reflexivity.
  - cbn [alter list_alter List.filter set_init isfree].
    destruct (isfree p); reflexivity.
  - cbn [alter list_alter List.filter].
    destruct (isfree p); cbn [flat_map]; by rewrite (IH i).
Qed.

Lemma map_set_init {A} (f : ParameterSpec → A) (z : pyval) (i : nat)
    (cat : list ParameterSpec) :
  (∀ p, f (set_init z p) = f p) →
  List.map f (alter (set_init z) i cat) = List.map f cat.
Proof.
  intros Hf. revert i.
  induction cat as [|p cat IH]; intros [|i]; simpl; try reflexivity.
  - by rewrite Hf.
  - f_equal. apply IH.
Qed.

(** X21: [load_model] keeps the layout of the catalog.  Whatever the
    redshift, the catalog it leaves has the names, multiplicities, free
    flags and priors it had, entry by entry; the free parameters, the slots
    of the Theta vector and its length are unchanged. *)
Theorem load_model_keeps_layout {F : Type} {num : Numeric F} {host : Host F}
    (zred : pyval) (cat cat' : list ParameterSpec) (m : SpatialSedModel F) :
  load_model zred cat = Ok (m, cat') →
  List.map table_row cat' = List.map table_row cat ∧
  List.map prior cat' = List.map prior cat ∧
  theta_slots cat' = theta_slots cat ∧
  ndim cat' = ndim cat.
Proof.
  intros H. unfold load_model in H. cbn zeta in H.
  apply bind_Ok in H as (zind & _ & H). injection H as _ <-.
  split; [by apply map_set_init|]. split; [by apply map_set_init|].
  unfold ndim. rewrite theta_slots_set_init. split; reflexivity.
Qed.

Lemma load_model_keeps_layout_witness :
  ∃ m cat',
    load_model (host := demo) (PyFloat 3) model_params = Ok (m, cat') ∧
    List.map table_row cat' = List.map table_row model_params ∧
    List.map prior cat' = List.map prior model_params ∧
    theta_slots cat' = theta_slots model_params ∧
    ndim cat' = ndim model_params.
Proof.
  destruct (load_model (host := demo) (PyFloat 3) model_params)
    as [[m cat']|e] eqn:E.
  - exists m, cat'. split; [reflexivity|].
    exact (load_model_keeps_layout _ _ _ _ E).
  - vm_compute in E. discriminate E.
Defined.

(** X22: the catalog and the mock values are consistent.  The names of the
    catalog are pairwise distinct; every free parameter has a prior; every
    initial value of an entry with a prior is a number within the bounds of
    that prior; and for every free parameter [run_params] has an array of as
    many mock values as the parameter has components, each within the
    bounds of the prior. *)
Theorem model_params_consistent :
  NoDup (List.map name model_params) ∧
  Forall (fun p => isfree p = true → is_Some (prior p)) model_params ∧
  Forall (fun p => ∀ pr, prior p = Some pr →
                   ∃ q, init p = PyFloat q ∧ within pr q) model_params ∧
  Forall (fun p => isfree p = true →
                   ∃ a pr, (name p, PyArr a) ∈ run_params ∧
                           length a = N p ∧ prior p = Some pr ∧
                           Forall (within pr) a) model_params.
Proof.
  split; [|split; [|split]].
  - apply (bool_decide_eq_true_1 _). vm_compute. reflexivity.
  - apply Forall_forall. intros p Hp. apply list_elem_of_In in Hp.
    cbn in Hp. repeat (destruct Hp as [<-|Hp]; [cbn; first
      [discriminate | intros _; eexists; reflexivity]|]).
    contradiction.
  - apply Forall_forall. intros p Hp. apply list_elem_of_In in Hp.
    cbn in Hp. repeat (destruct Hp as [<-|Hp]; [cbn; intros pr [= <-];
      eexists; (split; [reflexivity|]); split; vm_compute;
      discriminate|]).
    contradiction.
  - apply Forall_forall. intros p Hp. apply list_elem_of_In in Hp.
    cbn in Hp. repeat (destruct Hp as [<-|Hp]; [cbn; first
      [discriminate
      |intros _; eexists _, _;
       (split; [apply list_elem_of_In; cbn;
                repeat first [left; reflexivity | right]|]);
       (split; [reflexivity|]); (split; [reflexivity|]);
       repeat (apply List.Forall_cons;
               [split; vm_compute; discriminate|]);
       apply List.Forall_nil]|]).
    contradiction.
Qed.

(** ** load_obs: the noise *)

(** X23: a call of [load_obs] with [add_noise=True] that returns stores
    under ['maggies'] the noiseless photometry plus one standard normal
    draw per value times the uncertainty [phot / snr]; the noiseless
    photometry itself is kept under ['true_maggies']. *)
Theorem load_obs_with_noise {F : Type} {num : Numeric F} {host : Host F}
    (snr : nd F) (kwargs : gmap string pyval)
    (cat cat' : list ParameterSpec) (obs : Obs F) :
  load_obs snr true kwargs cat = Ok (obs, cat') →
  ∃ (phot unc pnoise mag : nd F) (n : nat),
    true_maggies obs = Some phot ∧
    maggies_unc obs = Some unc ∧
    np_binop fdiv phot snr = Ok unc ∧
    py_len phot = Ok n ∧
    np_binop fmul (V1 (random_normal n)) unc = Ok pnoise ∧
    np_binop fadd phot pnoise = Ok mag ∧
    maggies obs = Some mag.
Proof.
  intros H. apply load_obs_returns in H
    as (spec & phot & unc & mag & n & Hunc & Hn & (pnoise & Hp & Hmag) & ->).
  exists phot, unc, pnoise, mag, n. cbn [true_maggies maggies_unc maggies].
  auto 10.
Qed.

Lemma load_obs_with_noise_witness :
  ∃ obs cat',
    load_obs (host := demo) (Sc 20%Q) true run_kwargs model_params
      = Ok (obs, cat') ∧
    ∃ (phot unc pnoise mag : nd Q) (n : nat),
      true_maggies obs = Some phot ∧
      maggies_unc obs = Some unc ∧
      np_binop fdiv phot (Sc 20%Q) = Ok unc ∧
      py_len phot = Ok n ∧
      np_binop fmul (V1 (random_normal (Host := demo) n)) unc = Ok pnoise ∧
      np_binop fadd phot pnoise = Ok mag ∧
      maggies obs = Some mag.
Proof.
  destruct (load_obs (host := demo) (Sc 20%Q) true run_kwargs model_params)
    as [[obs cat']|e] eqn:E.
  - exists obs, cat'. split; [reflexivity|].
    exact (load_obs_with_noise _ _ _ _ _ E).
  - vm_compute in E. discriminate E.
Defined.

(** ** More on the flux clamp *)

Lemma nd_map_ext {F : Type} (f g : F → F) (a : nd F) :
  (∀ v, v ∈ flat a → f v = g v) → nd_map f a = nd_map g a.
Proof.
  destruct a as [x|v|m]; simpl; intros H.
  - f_equal. apply H. left.
  - f_equal. apply map_ext_in. intros x Hx. apply H. by apply list_elem_of_In.
  - f_equal. induction m as [|r m IH]; [reflexivity|]. simpl. f_equal.
    + apply map_ext_in. intros x Hx. apply H. simpl.
      apply elem_of_app. left. by apply list_elem_of_In.
    + apply IH. intros x Hx. apply H. simpl. apply elem_of_app. by right.
Qed.

Lemma nd_map_id {F : Type} (f : F → F) (a : nd F) :
  (∀ v, v ∈ flat a → f v = v) → nd_map f a = a.
Proof.
  intros H. rewrite (nd_map_ext f (fun v => v) a H). clear H.
  destruct a as [x|v|m]; simpl; f_equal.
  - apply List.map_id.
  - induction m as [|r m IH]; [reflexivity|]. simpl. f_equal; [apply List.map_id|exact IH].
Qed.

Lemma py_len_nd_map {F : Type} (f : F → F) (a : nd F) :
  py_len (nd_map f a) = py_len a.
Proof. destruct a; simpl; by rewrite ?length_map. Qed.

(** The threshold of the clamp where the spectrum has a length and a
    positive value. *)
Lemma clamp_threshold_positive (spec : nd Q) (n : nat) :
  py_len spec = Ok n →
  (∃ v, v ∈ flat spec ∧ (0 < v)%Q) →
  ∃ m : Q,
    clamp_threshold spec = Ok (1.0 / inject_Z (Z.of_nat n) * m)%Q ∧
    m ∈ flat spec ∧ (0 < m)%Q ∧
    (∀ v, v ∈ flat spec → (0 < v)%Q → (m <= v)%Q) ∧
    (0 < 1.0 / inject_Z (Z.of_nat n) * m)%Q ∧
    (1.0 / inject_Z (Z.of_nat n) * m <= m)%Q.
Proof.
  intros Hn (v & Hv & Hpos).
  pose proof (py_len_positive _ _ _ Hn Hv) as Hn0.
  destruct (np_min (List.filter (fun v => fltb (flit 0) v) (flat spec)))
    as [m|e] eqn:Em.
  - destruct (np_min_spec _ _ Em) as [Hm Hmin].
    apply elem_of_positive_filter in Hm as [Hm Hmpos].
    exists m. split; [|split; [exact Hm|split; [exact Hmpos|split; [|split]]]].
    + unfold clamp_threshold. rewrite Hn. cbn [mbind result_bind].
      apply Nat.eqb_neq in Hn0. rewrite Hn0. cbn [mbind result_bind].
      rewrite Em. reflexivity.
    + intros w Hw Hwpos. apply Hmin. by apply elem_of_positive_filter.
    + assert (Hq : (0 < inject_Z (Z.of_nat n))%Q).
      { unfold Qlt. simpl. lia. }
      apply Qmult_lt_0_compat; [|exact Hmpos].
      apply Qlt_shift_div_l; [exact Hq|]. reflexivity.
    + assert (Hq : (1.0 <= inject_Z (Z.of_nat n))%Q).
      { unfold Qle. simpl. lia. }
      assert (Hinv : (1.0 / inject_Z (Z.of_nat n) <= 1)%Q).
      { apply Qle_shift_div_r.
        - eapply Qlt_le_trans; [|exact Hq]. reflexivity.
        - rewrite Qmult_1_l. exact Hq. }
      rewrite <- (Qmult_1_l m) at 2.
      apply Qmult_le_compat_r; [exact Hinv|by apply Qlt_le_weak].
  - exfalso. destruct (List.filter _ (flat spec)) as [|x l] eqn:El.
    + assert (Hin : v ∈ List.filter (fun v => fltb (flit 0) v) (flat spec))
        by (by apply elem_of_positive_filter).
      rewrite El in Hin. by apply elem_of_nil in Hin.
    + discriminate.
Qed.

(** Where the spectrum has a positive value, the clamp is one map over its
    values. *)
Lemma flux_clamp_as_map (spec : nd Q) (n : nat) :
  py_len spec = Ok n →
  (∃ v, v ∈ flat spec ∧ (0 < v)%Q) →
  ∃ tiny : Q,
    clamp_threshold spec = Ok tiny ∧ (0 < tiny)%Q ∧
    flux_clamp spec
      = nd_map (fun v => if fltb (flit 0) v then v else tiny) spec.
Proof.
  intros Hn Hpos.
  destruct (clamp_threshold_positive spec n Hn Hpos)
    as (m & Ht & Hm & Hmpos & Hmin & Htpos & Htm).
  exists (1.0 / inject_Z (Z.of_nat n) * m)%Q.
  split; [exact Ht|]. split; [exact Htpos|].
  unfold flux_clamp. rewrite Ht. unfold clamp_to. apply nd_map_ext.
  intros v Hv. destruct (fltb (flit 0) v) eqn:E0.
  - apply Q_fltb_lt in E0.
    assert (Hge : fltb v (1.0 / inject_Z (Z.of_nat n) * m)%Q = false).
    { apply Q_fltb_ge. eapply Qle_trans; [exact Htm|]. by apply Hmin. }
    by rewrite Hge.
  - apply Q_fltb_ge in E0.
    assert (Hlt : fltb v (1.0 / inject_Z (Z.of_nat n) * m)%Q = true).
    { apply Q_fltb_lt. eapply Qle_lt_trans; [exact E0|exact Htpos]. }
    by rewrite Hlt.
Qed.

(** X24: in exact arithmetic, where the spectrum has a positive value, the
    clamp keeps every positive value as it is and puts the threshold, which
    is positive, in the place of every other value; afterwards all values
    are positive. *)
Theorem flux_clamp_keeps_positive (spec : nd Q) (n : nat) :
  py_len spec = Ok n →
  (∃ v, v ∈ flat spec ∧ (0 < v)%Q) →
  ∃ tiny : Q,
    clamp_threshold spec = Ok tiny ∧ (0 < tiny)%Q ∧
    flat (flux_clamp spec)
      = List.map (fun v => if fltb (flit 0) v then v else tiny) (flat spec) ∧
    py_len (flux_clamp spec) = Ok n ∧
    ∀ v, v ∈ flat (flux_clamp spec) → (0 < v)%Q.
Proof.
  intros Hn Hpos.
  destruct (flux_clamp_as_map spec n Hn Hpos) as (tiny & Ht & Htpos & Ec).
  exists tiny. split; [exact Ht|]. split; [exact Htpos|].
  rewrite Ec, flat_nd_map, py_len_nd_map.
  split; [reflexivity|]. split; [exact Hn|].
  intros v Hv. apply list_elem_of_fmap in Hv as (u & -> & Hu).
  destruct (fltb (flit 0) u) eqn:E0; [by apply Q_fltb_lt in E0|exact Htpos].
Qed.

(** The spectrum of [flux_clamp_demo]. *)
Lemma flux_clamp_keeps_positive_witness :
  ∃ tiny : Q,
    clamp_threshold (M2 [[3; -1; 0]; [0.5; 2; -4]]%Q) = Ok tiny ∧
    (0 < tiny)%Q ∧
    flat (flux_clamp (M2 [[3; -1; 0]; [0.5; 2; -4]]%Q))
      = List.map (fun v => if fltb (flit 0) v then v else tiny)
                 (flat (M2 [[3; -1; 0]; [0.5; 2; -4]]%Q)) ∧
    py_len (flux_clamp (M2 [[3; -1; 0]; [0.5; 2; -4]]%Q)) = Ok 2%nat ∧
    ∀ v, v ∈ flat (flux_clamp (M2 [[3; -1; 0]; [0.5; 2; -4]]%Q)) → (0 < v)%Q.
Proof.
  apply (flux_clamp_keeps_positive (M2 [[3; -1; 0]; [0.5; 2; -4]]%Q) 2);
    [reflexivity|].
  exists 3%Q. split; [left|reflexivity].
Defined.

(** X25: in exact arithmetic the clamp is idempotent: a spectrum that went
    through it is left as it is by a second pass. *)
Theorem flux_clamp_idempotent (spec : nd Q) :
  flux_clamp (flux_clamp spec) = flux_clamp spec.
Proof.
  destruct (py_len spec) as [n|e] eqn:Hn.
  2: { assert (E : flux_clamp spec = spec).
       { unfold flux_clamp, clamp_threshold. by rewrite Hn. }
       by rewrite !E. }
  destruct (List.filter (fun v => fltb (flit 0) v) (flat spec))
    as [|p l] eqn:El.
  { assert (E : flux_clamp spec = spec).
    { apply flux_clamp_no_positive. intros v Hv.
      destruct (fltb (flit 0) v) eqn:E0; [|reflexivity].
      assert (Hin : v ∈ List.filter (fun v => fltb (flit 0) v) (flat spec)).
      { apply list_elem_of_In, filter_In. split; [by apply list_elem_of_In|done]. }
      rewrite El in Hin. by apply elem_of_nil in Hin. }
    by rewrite !E. }
  assert (Hpos : ∃ v, v ∈ flat spec ∧ (0 < v)%Q).
  { exists p. apply elem_of_positive_filter. rewrite El. left. }
  destruct (flux_clamp_as_map spec n Hn Hpos) as (tiny & _ & Htpos & Ec).
  remember (flux_clamp spec) as r eqn:Er.
  assert (Hall : ∀ v, v ∈ flat r → (0 < v)%Q).
  { intros v Hv. rewrite Ec, flat_nd_map in Hv.
    apply list_elem_of_fmap in Hv as (u & -> & Hu).
    destruct (fltb (flit 0) u) eqn:E0; [by apply Q_fltb_lt in E0|exact Htpos]. }
  assert (Hnr : py_len r = Ok n) by (rewrite Ec, py_len_nd_map; done).
  assert (Hposr : ∃ v, v ∈ flat r ∧ (0 < v)%Q).
  { destruct Hpos as (v & Hv & Hvp). exists v. split; [|exact Hvp].
    rewrite Ec, flat_nd_map. apply list_elem_of_fmap.
    exists v. split; [|exact Hv].
    cbn beta. destruct (fltb (flit 0) v) eqn:E0; [reflexivity|].
    apply Q_fltb_ge in E0. by apply Qlt_not_le in Hvp. }
  destruct (clamp_threshold_positive r n Hnr Hposr)
    as (m' & Ht' & Hm' & Hmpos' & Hmin' & Htpos' & Htm').
  unfold flux_clamp at 1. rewrite Ht'. unfold clamp_to. apply nd_map_id.
  intros v Hv.
  assert (Hge : fltb v (1.0 / inject_Z (Z.of_nat n) * m')%Q = false).
  { apply Q_fltb_ge. eapply Qle_trans; [exact Htm'|].
    apply Hmin'; [exact Hv|by apply Hall]. }
  by rewrite Hge.
Qed.

(** * The deduplication, by projection *)

Section Selection.
Context {F : Type} {num : Numeric F} {host : Host F}.

























End Selection.

Section WithoutDedup.
Context {F : Type} {num : Numeric F} {host : Host F}.







End WithoutDedup.



